(** * Overwatch frame processor: a shallow embedding of
      [backend/cpp_preproc/frame_processor.{hpp,cpp}]

    The C++ classes [FrameProcessor] and [FrameProcessorPool] are embedded
    as functions over an explicit state.  OpenCV and turbojpeg are external
    libraries: their entry points are the fields of [Primitives], and the
    model is parametric in them.  Exceptions are results of type [outcome];
    an out-of-range [std::vector::operator[]] is the outcome [Undefined]. *)

From Stdlib Require Import ZArith Lia Bool.
From Stdlib Require Import Floats.SpecFloat.
From stdpp Require Import base list strings relations.

Open Scope Z_scope.

(** ** Pixel buffers ([cv::Mat]) *)

(** IEEE-754 binary32, the element type [CV_32F]: [spec_float] at
    precision 24 and maximal exponent 128. *)
Definition prec32 : Z := 24.
Definition emax32 : Z := 128.
Definition f32_valid (x : spec_float) : bool := valid_binary prec32 emax32 x.
Definition f32_sub : spec_float -> spec_float -> spec_float := SFsub prec32 emax32.
Definition f32_div : spec_float -> spec_float -> spec_float := SFdiv prec32 emax32.
(** C++ [a != b] on floats: true when unordered or different. *)
Definition f32_neq (a b : spec_float) : bool := negb (SFeqb a b).

(** [0.0f] and [1.0f]. *)
Definition f32_zero : spec_float := S754_zero false.
Definition f32_one : spec_float := S754_finite false 8388608 (-23).

(** The sample planes of a matrix, one inner list per pixel in row-major
    order, typed by depth: [CV_8U] samples are integers in [0,255],
    [CV_32F] samples are binary32 values. *)
Inductive MatData : Type :=
  | Data8U (px : list (list Z))
  | Data32F (px : list (list spec_float)).

Inductive Depth : Type := CV_8U | CV_32F.

Record Mat : Type := mkMat {
  rows : Z;
  cols : Z;
  cn : Z;              (* Mat::channels() *)
  mdata : MatData
}.

Definition depth (m : Mat) : Depth :=
  match mdata m with Data8U _ => CV_8U | Data32F _ => CV_32F end.

(** [Mat::elemSize1()], [Mat::elemSize()], [Mat::total()]. *)
Definition elemSize1 (m : Mat) : Z :=
  match depth m with CV_8U => 1 | CV_32F => 4 end.
Definition elemSize (m : Mat) : Z := cn m * elemSize1 m.
Definition total (m : Mat) : Z := rows m * cols m.

(** [Mat::empty()]. *)
Definition mat_empty (m : Mat) : bool := (rows m <=? 0) || (cols m <=? 0).

Definition npixels (m : Mat) : nat :=
  match mdata m with Data8U px => length px | Data32F px => length px end.

(** Bit pattern of a binary32 value (sign, biased exponent, fraction). *)
Definition f32_bits (x : spec_float) : Z :=
  match x with
  | S754_zero s => if s then 2147483648 else 0
  | S754_infinity s => (if s then 2147483648 else 0) + 2139095040
  | S754_nan => 2143289344
  | S754_finite s m e =>
      (if s then 2147483648 else 0) +
      (if Z.pos (digits2_pos m) =? prec32
       then (e + 150) * 8388608 + (Z.pos m - 8388608)
       else Z.pos m)
  end.

Definition le_bytes32 (w : Z) : list Z :=
  [ Z.land w 255; Z.land (Z.shiftr w 8) 255;
    Z.land (Z.shiftr w 16) 255; Z.land (Z.shiftr w 24) 255 ].

(** The storage of a continuous matrix as the bytes [memcpy] reads through
    [Mat::data]. *)
Definition mat_bytes (m : Mat) : list Z :=
  match mdata m with
  | Data8U px => concat px
  | Data32F px => concat (map (fun p => concat (map (fun x => le_bytes32 (f32_bits x)) p)) px)
  end.

(** A matrix as the C++ side can build it: geometry and storage agree. *)
Definition pixel_widths (m : Mat) : list nat :=
  match mdata m with
  | Data8U px => map length px
  | Data32F px => map length px
  end.

Definition mat_wf (m : Mat) : Prop :=
  0 <= rows m /\ 0 <= cols m /\ 1 <= cn m /\
  Z.of_nat (npixels m) = total m /\
  Forall (fun n => Z.of_nat n = cn m) (pixel_widths m).

(** ** Configuration and results (frame_processor.hpp) *)

Record PreprocessConfig : Type := mkPreprocessConfig {
  target_width : Z;
  target_height : Z;
  normalize : bool;
  rgb_conversion : bool;
  mean : spec_float * spec_float * spec_float;
  std : spec_float * spec_float * spec_float;
  interpolation : Z
}.

Definition INTER_LINEAR : Z := 1.
Definition TJSAMP_420 : Z := 2.
Definition TJFLAG_FASTDCT : Z := 2048.

(** [mean[i]] / [std[i]] of a [float[3]]. *)
Definition at3 (a : spec_float * spec_float * spec_float) (i : nat) : spec_float :=
  match a, i with
  | (x, _, _), O => x
  | (_, y, _), S O => y
  | (_, _, z), _ => z
  end.

Definition default_PreprocessConfig : PreprocessConfig :=
  {| target_width := 640; target_height := 640;
     normalize := true; rgb_conversion := true;
     mean := (f32_zero, f32_zero, f32_zero);
     std := (f32_one, f32_one, f32_one);
     interpolation := INTER_LINEAR |}.

Record JPEGConfig : Type := mkJPEGConfig {
  quality : Z;
  subsample : Z;
  optimize : bool;
  progressive : bool
}.

Definition default_JPEGConfig : JPEGConfig :=
  {| quality := 85; subsample := TJSAMP_420; optimize := true; progressive := false |}.

(** [struct ProcessedFrame].  The three [int] members have no initialiser:
    [None] is the indeterminate value of a default-initialised local. *)
Record ProcessedFrame : Type := mkProcessedFrame {
  data : list Z;
  width : option Z;
  height : option Z;
  channels : option Z;
  success : bool;
  error_msg : string
}.

(** [ProcessedFrame result;] — a default-initialised local. *)
Definition ProcessedFrame_local : ProcessedFrame :=
  {| data := []; width := None; height := None; channels := None;
     success := false; error_msg := "" |}.

(** An element of [std::vector<ProcessedFrame>(n)]: value-initialised. *)
Definition ProcessedFrame_zero : ProcessedFrame :=
  {| data := []; width := Some 0; height := Some 0; channels := Some 0;
     success := false; error_msg := "" |}.

Definition set_data (d : list Z) (r : ProcessedFrame) : ProcessedFrame :=
  {| data := d; width := width r; height := height r; channels := channels r;
     success := success r; error_msg := error_msg r |}.
Definition set_geometry (w h c : Z) (r : ProcessedFrame) : ProcessedFrame :=
  {| data := data r; width := Some w; height := Some h; channels := Some c;
     success := success r; error_msg := error_msg r |}.
Definition set_success (b : bool) (r : ProcessedFrame) : ProcessedFrame :=
  {| data := data r; width := width r; height := height r; channels := channels r;
     success := b; error_msg := error_msg r |}.
Definition set_error_msg (e : string) (r : ProcessedFrame) : ProcessedFrame :=
  {| data := data r; width := width r; height := height r; channels := channels r;
     success := success r; error_msg := e |}.

(** ** Faults *)

(** What a C++ expression evaluates to: a value, a thrown [std::exception]
    carrying [what()], or undefined behaviour. *)
Inductive outcome (A : Type) : Type :=
  | Ok (a : A)
  | Throw (what : string)
  | Undefined.
Arguments Ok {A} a.
Arguments Throw {A} what.
Arguments Undefined {A}.

#[global] Instance outcome_ret : MRet outcome := fun A a => Ok a.
#[global] Instance outcome_bind : MBind outcome := fun A B f o =>
  match o with
  | Ok a => f a
  | Throw w => Throw w
  | Undefined => Undefined
  end.

(** ** External libraries *)

(** A library call returns a value or throws ([cv::Exception] derives from
    [std::exception]); [inl what] is the exception. *)
Definition call {A} (r : string + A) : outcome A :=
  match r with inl what => Throw what | inr a => Ok a end.

Inductive ColorCode : Type := COLOR_BGR2RGB | COLOR_RGB2BGR | COLOR_BGRA2BGR.
Inductive PixelFormat : Type := TJPF_GRAY | TJPF_BGR.

(** A [tjhandle], identified by its allocation number. *)
Definition tjhandle : Type := nat.

(** The OpenCV and turbojpeg entry points the processor calls.
    [cv_resize src w h interp] is
    [cv::resize(src, dst, Size(w,h), 0, 0, interp)],
    [cvt_8u]/[cvt_32f] are what [convertTo(_, CV_32FC3, 1.0/255.0)] does to
    one sample, and [tjCompress2 h m pf subsamp qual flags] returns the
    status code together with the codestream it produced. *)
Class Primitives : Type := {
  hardware_concurrency : Z;
  cv_resize : Mat -> Z -> Z -> Z -> string + Mat;
  cvtColor : Mat -> ColorCode -> string + Mat;
  cvt_8u : Z -> spec_float;
  cvt_32f : spec_float -> spec_float;
  tjCompress2 : tjhandle -> Mat -> PixelFormat -> Z -> Z -> Z -> Z * list Z;
  tjGetErrorStr : string
}.

(** ** Transform engine *)

Section Transform.
Context `{P : Primitives}.

(** [m.convertTo(dst, CV_32FC3, 1.0 / 255.0)]: only the depth of the type
    argument is used, the channel count is kept. *)
Definition convertTo_32F (m : Mat) : Mat :=
  {| rows := rows m; cols := cols m; cn := cn m;
     mdata := match mdata m with
              | Data8U px => Data32F (map (map cvt_8u) px)
              | Data32F px => Data32F (map (map cvt_32f) px)
              end |}.

Definition plane_data (i : nat) (d : MatData) : MatData :=
  match d with
  | Data8U px => Data8U (map (fun p => option_list (p !! i)) px)
  | Data32F px => Data32F (map (fun p => option_list (p !! i)) px)
  end.

(** [cv::split(m, mv)]: [mv] is released for an empty matrix, and holds one
    single-channel plane per channel otherwise. *)
Definition split (m : Mat) : list Mat :=
  if mat_empty m then []
  else map (fun i => {| rows := rows m; cols := cols m; cn := 1;
                        mdata := plane_data i (mdata m) |})
           (seq 0 (Z.to_nat (cn m))).

Definition interleave {A} (a b : list (list A)) : list (list A) :=
  zip_with app a b.

Definition merge2 (a b : Mat) : outcome Mat :=
  if negb ((rows a =? rows b) && (cols a =? cols b)) then
    Throw "merge: size mismatch"
  else
    match mdata a, mdata b with
    | Data8U pa, Data8U pb =>
        Ok {| rows := rows a; cols := cols a; cn := cn a + cn b;
              mdata := Data8U (interleave pa pb) |}
    | Data32F pa, Data32F pb =>
        Ok {| rows := rows a; cols := cols a; cn := cn a + cn b;
              mdata := Data32F (interleave pa pb) |}
    | _, _ => Throw "merge: depth mismatch"
    end.

(** [cv::merge(mv, dst)]: asserts a non-empty vector of planes of one size
    and depth. *)
Definition merge (mv : list Mat) : outcome Mat :=
  match mv with
  | [] => Throw "merge: empty vector"
  | m0 :: ms => foldl (fun acc m => a ← acc; merge2 a m) (Ok m0) ms
  end.

(** The matrix expression [(c - mu) / sigma] on a float plane: the two
    binary32 operations it names, on every sample.  Its operand is always a
    plane of a [CV_32F] matrix. *)
Definition sub_div (c : Mat) (mu sigma : spec_float) : Mat :=
  {| rows := rows c; cols := cols c; cn := cn c;
     mdata := match mdata c with
              | Data32F px => Data32F (map (map (fun x => f32_div (f32_sub x mu) sigma)) px)
              | Data8U px => Data8U px
              end |}.

(** One iteration [channels[i] = (channels[i] - mean[i]) / std[i]]:
    [operator[]] is unchecked, an index past the end is undefined. *)
Definition normalize_channel (mean std : spec_float * spec_float * spec_float)
    (channels : list Mat) (i : nat) : outcome (list Mat) :=
  match channels !! i with
  | Some c => Ok (<[i := sub_div c (at3 mean i) (at3 std i)]> channels)
  | None => Undefined
  end.

(** [for (int i = 0; i < n; i++) channels[i] = ...]. *)
Definition normalize_channels (mean std : spec_float * spec_float * spec_float)
    (n : nat) (channels : list Mat) : outcome (list Mat) :=
  foldl (fun acc i => cs ← acc; normalize_channel mean std cs i) (Ok channels) (seq 0 n).

(** The test guarding the mean/std arithmetic in [preprocess_internal]. *)
Definition mean_std_given (config : PreprocessConfig) : bool :=
  f32_neq (at3 (mean config) 0) f32_zero || f32_neq (at3 (mean config) 1) f32_zero ||
  f32_neq (at3 (mean config) 2) f32_zero ||
  f32_neq (at3 (std config) 0) f32_one || f32_neq (at3 (std config) 1) f32_one ||
  f32_neq (at3 (std config) 2) f32_one.

(** The three steps of [FrameProcessor::preprocess_internal]. *)
Definition resize_step (config : PreprocessConfig) (processed : Mat) : outcome Mat :=
  if (0 <? target_width config) && (0 <? target_height config) then
    call (cv_resize processed (target_width config) (target_height config)
                     (interpolation config))
  else Ok processed.

Definition color_step (frame : Mat) (config : PreprocessConfig) (processed : Mat) : outcome Mat :=
  if rgb_conversion config && (cn frame =? 3) then call (cvtColor processed COLOR_BGR2RGB)
  else Ok processed.

Definition normalize_step (config : PreprocessConfig) (processed : Mat) : outcome Mat :=
  if normalize config then
    let processed := convertTo_32F processed in
    if mean_std_given config then
      channels ← normalize_channels (mean config) (std config) 3 (split processed);
      merge channels
    else Ok processed
  else Ok processed.

(** [FrameProcessor::preprocess_internal]. *)
Definition preprocess_internal (frame : Mat) (config : PreprocessConfig) : outcome Mat :=
  let processed := frame in
  processed ← resize_step config processed;
  processed ← color_step frame config processed;
  normalize_step config processed.

(** [FrameProcessor::normalize_frame]. *)
Definition normalize_frame (frame : Mat) (mean std : spec_float * spec_float * spec_float)
    : outcome Mat :=
  let normalized := convertTo_32F frame in
  let channels := split normalized in
  channels ← normalize_channels mean std (Nat.min 3 (length channels)) channels;
  merge channels.

(** [FrameProcessor::bgr_to_rgb], [FrameProcessor::rgb_to_bgr]. *)
Definition bgr_to_rgb (frame : Mat) : outcome Mat := call (cvtColor frame COLOR_BGR2RGB).
Definition rgb_to_bgr (frame : Mat) : outcome Mat := call (cvtColor frame COLOR_RGB2BGR).

End Transform.

(** ** Processor state *)

Inductive tj_event : Type :=
  | TjInit (t : nat) (h : tjhandle)
  | TjCompress (t : nat) (h : tjhandle) (m : Mat) (pf : PixelFormat) (subsamp qual flags : Z)
  | TjDestroy (t : nat) (h : tjhandle).

(** The members of a [FrameProcessor] together with what its methods touch
    outside the object: the thread they run on and the turbojpeg library
    (the next handle [tjInitCompress] hands out and the calls made so far,
    each with the calling thread and the handle it was made through). *)
Record State : Type := mkState {
  jpeg_compressor_ : tjhandle;
  num_threads_ : Z;
  frames_processed_ : Z;
  bytes_encoded_ : Z;
  tid : nat;
  tj_next : tjhandle;
  tj_log : list tj_event
}.

(** [size_t] arithmetic wraps at [2^64]. *)
Definition SIZE_MOD : Z := 2 ^ 64.

Definition set_stats (fp be : Z) (s : State) : State :=
  {| jpeg_compressor_ := jpeg_compressor_ s; num_threads_ := num_threads_ s;
     frames_processed_ := fp; bytes_encoded_ := be;
     tid := tid s; tj_next := tj_next s; tj_log := tj_log s |}.
Definition set_tid (t : nat) (s : State) : State :=
  {| jpeg_compressor_ := jpeg_compressor_ s; num_threads_ := num_threads_ s;
     frames_processed_ := frames_processed_ s; bytes_encoded_ := bytes_encoded_ s;
     tid := t; tj_next := tj_next s; tj_log := tj_log s |}.
Definition set_tj (next : tjhandle) (log : list tj_event) (s : State) : State :=
  {| jpeg_compressor_ := jpeg_compressor_ s; num_threads_ := num_threads_ s;
     frames_processed_ := frames_processed_ s; bytes_encoded_ := bytes_encoded_ s;
     tid := tid s; tj_next := next; tj_log := log |}.

(** Computations of the methods: a state transformer with a fault. *)
Definition M (A : Type) : Type := State -> outcome A * State.

#[global] Instance M_ret : MRet M := fun A a s => (Ok a, s).
#[global] Instance M_bind : MBind M := fun A B f m s =>
  match m s with
  | (Ok a, s') => f a s'
  | (Throw w, s') => (Throw w, s')
  | (Undefined, s') => (Undefined, s')
  end.

Definition lift {A} (o : outcome A) : M A := fun s => (o, s).
Definition throw {A} (what : string) : M A := lift (Throw what).

(** [try { body } catch (const std::exception& e) { handler(e.what()) }]. *)
Definition try_catch {A} (body : M A) (handler : string -> M A) : M A := fun s =>
  match body s with
  | (Throw w, s') => handler w s'
  | r => r
  end.

Section Processor.
Context `{P : Primitives}.

(** [FrameProcessor::FrameProcessor(num_threads)], run on thread [t] with
    the turbojpeg library at [next], [log].  The library of the model always
    hands out a handle, so the throw on a null handle has no counterpart. *)
Definition FrameProcessor_new (num_threads : Z) (t : nat) (next : tjhandle)
    (log : list tj_event) : State :=
  {| jpeg_compressor_ := next;
     num_threads_ := if 0 <? num_threads then num_threads else hardware_concurrency;
     frames_processed_ := 0; bytes_encoded_ := 0;
     tid := t; tj_next := S next; tj_log := log ++ [TjInit t next] |}.

(** [get_frames_processed], [get_bytes_encoded]. *)
Definition get_frames_processed (s : State) : Z := frames_processed_ s.
Definition get_bytes_encoded (s : State) : Z := bytes_encoded_ s.

(** [FrameProcessor::reset_stats]. *)
Definition reset_stats (s : State) : State := set_stats 0 0 s.

(** [{ lock_guard lock(stats_mutex_); frames_processed_++; }]. *)
Definition count_frame : M unit := fun s =>
  (Ok tt, set_stats ((frames_processed_ s + 1) mod SIZE_MOD) (bytes_encoded_ s) s).

(** [{ lock_guard lock(stats_mutex_); frames_processed_++;
       bytes_encoded_ += jpeg_size; }]. *)
Definition count_encoded (jpeg_size : Z) : M unit := fun s =>
  (Ok tt, set_stats ((frames_processed_ s + 1) mod SIZE_MOD)
                    ((bytes_encoded_ s + jpeg_size) mod SIZE_MOD) s).

(** [data_size = m.total() * m.elemSize(); result.data.resize(data_size);
     memcpy(result.data.data(), m.data, data_size)]. *)
Definition copy_out (m : Mat) : list Z :=
  take (Z.to_nat (total m * elemSize m)) (mat_bytes m).

(** [FrameProcessor::resize_frame]. *)
Definition resize_frame (frame : Mat) (width height interpolation : Z)
    : M ProcessedFrame :=
  let result := set_success true
                  (set_geometry width height (cn frame) ProcessedFrame_local) in
  try_catch
    (resized ← lift (call (cv_resize frame width height interpolation));
     let result := set_data (copy_out resized) result in
     _ ← count_frame;
     mret result)
    (fun what => mret (set_error_msg what (set_success false result))).

(** [FrameProcessor::preprocess_for_inference]. *)
Definition preprocess_for_inference (frame : Mat) (config : PreprocessConfig)
    : M ProcessedFrame :=
  let result := set_success true ProcessedFrame_local in
  try_catch
    (processed ← lift (preprocess_internal frame config);
     let result := set_geometry (cols processed) (rows processed) (cn processed) result in
     let result := set_data (copy_out processed) result in
     _ ← count_frame;
     mret result)
    (fun what => mret (set_error_msg what (set_success false result))).

(** The call [tjCompress2(jpeg_compressor_, ...)] made by the running
    thread. *)
Definition compress (m : Mat) (pf : PixelFormat) (subsamp qual flags : Z)
    : M (Z * list Z) := fun s =>
  (Ok (tjCompress2 (jpeg_compressor_ s) m pf subsamp qual flags),
   set_tj (tj_next s)
          (tj_log s ++ [TjCompress (tid s) (jpeg_compressor_ s) m pf subsamp qual flags]) s).

(** [FrameProcessor::encode_jpeg_internal]. *)
Definition encode_jpeg_internal (frame : Mat) (config : JPEGConfig)
    : M ProcessedFrame :=
  let result := set_success true
                  (set_geometry (cols frame) (rows frame) (cn frame) ProcessedFrame_local) in
  try_catch
    (bgr_frame ← (if cn frame =? 4 then lift (call (cvtColor frame COLOR_BGRA2BGR))
                   else mret frame);
     let channels := cn bgr_frame in
     pixel_format ← (if channels =? 1 then mret TJPF_GRAY
                      else if channels =? 3 then mret TJPF_BGR
                      else throw "Unsupported channel count");
     '(ret, jpeg) ← compress bgr_frame pixel_format (subsample config) (quality config)
                       (if optimize config then TJFLAG_FASTDCT else 0);
     if negb (ret =? 0) then
       throw ("turbojpeg compression failed: " +:+ tjGetErrorStr)
     else
       let result := set_data jpeg result in
       _ ← count_encoded (Z.of_nat (length jpeg));
       mret result)
    (fun what => mret (set_error_msg what (set_success false result))).

(** [FrameProcessor::encode_jpeg]. *)
Definition encode_jpeg (frame : Mat) (config : JPEGConfig) : M ProcessedFrame :=
  encode_jpeg_internal frame config.

(** [FrameProcessor::preprocess_and_encode]. *)
Definition preprocess_and_encode (frame : Mat) (preproc_config : PreprocessConfig)
    (jpeg_config : JPEGConfig) : M ProcessedFrame :=
  try_catch
    (processed ← lift (preprocess_internal frame preproc_config);
     encode_jpeg_internal processed jpeg_config)
    (fun what => mret (set_error_msg what (set_success false ProcessedFrame_local))).

End Processor.

(** ** Batch engine *)

(** One run of an OpenMP work-sharing loop: the pairs (thread of the team,
    iteration) in the order in which the iterations are carried out. *)
Definition schedule : Type := list (nat * nat).

(** Every iteration [0 .. n-1] is run exactly once, by a thread of the
    team. *)
Definition valid_schedule (team n : nat) (sched : schedule) : Prop :=
  sched.*2 ≡ₚ seq 0 n /\ Forall (fun ti => (ti.1 < team)%nat) sched.

(** The team of a region opened with [num_threads(num_threads_)] has at
    least one and at most [num_threads_] threads. *)
Definition team_of (num_threads : Z) (team : nat) : Prop :=
  (1 <= team)%nat /\ Z.of_nat team <= num_threads.

(** The schedule of a build without OpenMP: the calling thread runs the
    iterations in order. *)
Definition sequential (n : nat) : schedule := map (fun i => (0%nat, i)) (seq 0 n).

(** A computation carried out by thread [t] of the team. *)
Definition on_thread {A} (t : nat) (m : M A) : M A := fun s =>
  let '(r, s') := m (set_tid t s) in (r, set_tid (tid s) s').

Section Batch.
Context `{P : Primitives}.

(** The loop of [batch_preprocess]: each iteration computes its result and
    appends it to [results] inside the critical section. *)
Fixpoint batch_preprocess_loop (frames : list Mat) (config : PreprocessConfig)
    (sched : schedule) (results : list ProcessedFrame) : M (list ProcessedFrame) :=
  match sched with
  | [] => mret results
  | (t, i) :: sched' =>
      match frames !! i with
      | Some frame =>
          result ← on_thread t (preprocess_for_inference frame config);
          batch_preprocess_loop frames config sched' (results ++ [result])
      | None => batch_preprocess_loop frames config sched' results
      end
  end.

(** [FrameProcessor::batch_preprocess]. *)
Definition batch_preprocess (sched : schedule) (frames : list Mat)
    (config : PreprocessConfig) : M (list ProcessedFrame) :=
  batch_preprocess_loop frames config sched [].

(** [tjInitCompress()] and [tjDestroy(h)] as called by the running thread. *)
Definition tjInitCompress : M tjhandle := fun s =>
  (Ok (tj_next s),
   set_tj (S (tj_next s)) (tj_log s ++ [TjInit (tid s) (tj_next s)]) s).
Definition tjDestroy (h : tjhandle) : M unit := fun s =>
  (Ok tt, set_tj (tj_next s) (tj_log s ++ [TjDestroy (tid s) h]) s).

(** Entry of the parallel region of [batch_encode_jpeg]: each thread of the
    team declares its local [compressor]. *)
Fixpoint team_init (threads : list nat) : M (list (nat * tjhandle)) :=
  match threads with
  | [] => mret []
  | t :: threads' =>
      compressor ← on_thread t tjInitCompress;
      rest ← team_init threads';
      mret ((t, compressor) :: rest)
  end.

(** Exit of the region: each thread destroys its local [compressor]. *)
Fixpoint team_destroy (locals : list (nat * tjhandle)) : M unit :=
  match locals with
  | [] => mret tt
  | (t, compressor) :: locals' =>
      _ ← on_thread t (tjDestroy compressor);
      team_destroy locals'
  end.

(** The work-sharing loop of [batch_encode_jpeg]:
    [results[i] = encode_jpeg_internal(frames[i], config)]. *)
Fixpoint batch_encode_loop (frames : list Mat) (config : JPEGConfig)
    (sched : schedule) (results : list ProcessedFrame) : M (list ProcessedFrame) :=
  match sched with
  | [] => mret results
  | (t, i) :: sched' =>
      match frames !! i with
      | Some frame =>
          result ← on_thread t (encode_jpeg_internal frame config);
          batch_encode_loop frames config sched' (<[i := result]> results)
      | None => batch_encode_loop frames config sched' results
      end
  end.

(** [FrameProcessor::batch_encode_jpeg], run by a team of [team] threads. *)
Definition batch_encode_jpeg (team : nat) (sched : schedule) (frames : list Mat)
    (config : JPEGConfig) : M (list ProcessedFrame) :=
  let results := replicate (length frames) ProcessedFrame_zero in
  locals ← team_init (seq 0 team);
  results ← batch_encode_loop frames config sched results;
  _ ← team_destroy locals;
  mret results.

End Batch.

(** The (thread, handle) pairs of the codec invocations in a log. *)
Definition compress_calls (log : list tj_event) : list (nat * tjhandle) :=
  omap (fun e => match e with TjCompress t h _ _ _ _ _ => Some (t, h) | _ => None end) log.

(** The (thread, handle) pairs of the handle acquisitions in a log. *)
Definition init_calls (log : list tj_event) : list (nat * tjhandle) :=
  omap (fun e => match e with TjInit t h => Some (t, h) | _ => None end) log.

(** The resource rule: every codec invocation goes through a handle that
    the invoking thread acquired itself, and no handle is invoked by two
    threads. *)
Definition own_handle_only (log : list tj_event) : Prop :=
  forall t h, (t, h) ∈ compress_calls log -> (t, h) ∈ init_calls log.
Definition handle_not_shared (log : list tj_event) : Prop :=
  forall t1 t2 h, (t1, h) ∈ compress_calls log -> (t2, h) ∈ compress_calls log -> t1 = t2.

(** ** Thread pool *)

(** The closures queued by [submit_batch] and [submit_encode_batch], each
    with the promise it captured. *)
Inductive task : Type :=
  | PreprocessTask (frames : list Mat) (config : PreprocessConfig) (promise : nat)
  | EncodeTask (frames : list Mat) (config : JPEGConfig) (promise : nat).

(** A worker thread is inside [worker_thread], has returned from it, or has
    been joined. *)
Inductive worker : Type := Running | Exited | Joined.

(** The members of a [FrameProcessorPool], with [ran], the tasks whose
    [task()] call was made, in the order of the calls, and [next_promise],
    the allocation number of the next promise. *)
Record Pool : Type := mkPool {
  workers_ : list worker;
  tasks_ : list task;
  stop_ : bool;
  ran : list task;
  next_promise : nat
}.

(** [FrameProcessorPool::FrameProcessorPool(num_threads)]. *)
Definition FrameProcessorPool_new (num_threads : nat) : Pool :=
  {| workers_ := replicate num_threads Running; tasks_ := []; stop_ := false;
     ran := []; next_promise := 0 |}.

(** [submit_batch]: the closure is queued under the lock and the future of
    the fresh promise is returned. *)
Definition submit_batch (frames : list Mat) (config : PreprocessConfig) (p : Pool)
    : nat * Pool :=
  (next_promise p,
   {| workers_ := workers_ p;
      tasks_ := tasks_ p ++ [PreprocessTask frames config (next_promise p)];
      stop_ := stop_ p; ran := ran p; next_promise := S (next_promise p) |}).

(** [submit_encode_batch]. *)
Definition submit_encode_batch (frames : list Mat) (config : JPEGConfig) (p : Pool)
    : nat * Pool :=
  (next_promise p,
   {| workers_ := workers_ p;
      tasks_ := tasks_ p ++ [EncodeTask frames config (next_promise p)];
      stop_ := stop_ p; ran := ran p; next_promise := S (next_promise p) |}).

(** First block of [shutdown]: [stop_ = true] under the lock. *)
Definition set_stop (p : Pool) : Pool :=
  {| workers_ := workers_ p; tasks_ := tasks_ p; stop_ := true;
     ran := ran p; next_promise := next_promise p |}.

Definition set_worker (i : nat) (w : worker) (p : Pool) : Pool :=
  {| workers_ := <[i := w]> (workers_ p); tasks_ := tasks_ p; stop_ := stop_ p;
     ran := ran p; next_promise := next_promise p |}.

(** The atomic steps of a pool and its clients.  A worker leaves
    [condition_.wait] when [stop_ || !tasks_.empty()]; it returns when
    [stop_ && tasks_.empty()], and otherwise pops the front task and calls
    it.  [join] returns once the worker has returned. *)
Inductive step : Pool -> Pool -> Prop :=
  | step_submit_batch p frames config :
      step p (submit_batch frames config p).2
  | step_submit_encode_batch p frames config :
      step p (submit_encode_batch frames config p).2
  | step_set_stop p :
      step p (set_stop p)
  | step_run p i t rest :
      workers_ p !! i = Some Running ->
      tasks_ p = t :: rest ->
      step p {| workers_ := workers_ p; tasks_ := rest; stop_ := stop_ p;
                ran := ran p ++ [t]; next_promise := next_promise p |}
  | step_return p i :
      workers_ p !! i = Some Running ->
      stop_ p = true -> tasks_ p = [] ->
      step p (set_worker i Exited p)
  | step_join p i :
      stop_ p = true ->
      workers_ p !! i = Some Exited ->
      step p (set_worker i Joined p).

Definition is_running (w : worker) : bool :=
  match w with Running => true | _ => false end.

(** [FrameProcessorPool::shutdown] run to its return with no other client
    of the pool active: the flag is set, the live workers drain the queue
    in order and return, and every joinable worker is joined. *)
Definition shutdown (p : Pool) : Pool :=
  if existsb is_running (workers_ p) then
    {| workers_ := map (fun _ => Joined) (workers_ p); tasks_ := []; stop_ := true;
       ran := ran p ++ tasks_ p; next_promise := next_promise p |}
  else
    {| workers_ := map (fun _ => Joined) (workers_ p); tasks_ := tasks_ p; stop_ := true;
       ran := ran p; next_promise := next_promise p |}.

(** All workers joined: [shutdown] has returned. *)
Definition stopped (p : Pool) : Prop :=
  stop_ p = true /\ Forall (fun w => w = Joined) (workers_ p).

(** ** A concrete instance of the external libraries

    Nearest-neighbour resampling, channel reordering, scaling by division
    and a framing "codec", with the argument checks of the real entry
    points.  The examples below run the processor on it. *)

Definition f32_of_Z (k : Z) : spec_float := binary_normalize prec32 emax32 k 0 false.

Definition sample_pixels {A} (src_rows src_cols w h : Z) (px : list (list A))
    : list (list A) :=
  map (fun k => let y := Z.of_nat k / w in
                let x := Z.of_nat k mod w in
                default [] (px !! Z.to_nat ((y * src_rows / h) * src_cols + x * src_cols / w)))
      (seq 0 (Z.to_nat (w * h))).

Definition sample_resize (src : Mat) (w h interp : Z) : string + Mat :=
  if mat_empty src || (w <=? 0) || (h <=? 0) then inl "resize: empty size"
  else inr {| rows := h; cols := w; cn := cn src;
              mdata := match mdata src with
                       | Data8U px => Data8U (sample_pixels (rows src) (cols src) w h px)
                       | Data32F px => Data32F (sample_pixels (rows src) (cols src) w h px)
                       end |}.

Definition map_pixels (f : forall A, list A -> list A) (d : MatData) : MatData :=
  match d with
  | Data8U px => Data8U (map (f Z) px)
  | Data32F px => Data32F (map (f spec_float) px)
  end.

Definition sample_cvtColor (m : Mat) (code : ColorCode) : string + Mat :=
  if mat_empty m then inl "cvtColor: empty input"
  else match code with
       | COLOR_BGR2RGB | COLOR_RGB2BGR =>
           if cn m =? 3 then
             inr {| rows := rows m; cols := cols m; cn := 3;
                    mdata := map_pixels (fun A p => reverse p) (mdata m) |}
           else inl "cvtColor: invalid number of channels"
       | COLOR_BGRA2BGR =>
           if cn m =? 4 then
             inr {| rows := rows m; cols := cols m; cn := 3;
                    mdata := map_pixels (fun A p => take 3 p) (mdata m) |}
           else inl "cvtColor: invalid number of channels"
       end.

Definition sample_tjCompress2 (h : tjhandle) (m : Mat) (pf : PixelFormat)
    (subsamp qual flags : Z) : Z * list Z :=
  if mat_empty m || (qual <? 1) || (100 <? qual) then (-1, [])
  else (0, [255; 216] ++ mat_bytes m ++ [255; 217]).

Definition sample_prims : Primitives :=
  {| hardware_concurrency := 4;
     cv_resize := sample_resize;
     cvtColor := sample_cvtColor;
     cvt_8u := fun k => f32_div (f32_of_Z k) (f32_of_Z 255);
     cvt_32f := fun x => f32_div x (f32_of_Z 255);
     tjCompress2 := sample_tjCompress2;
     tjGetErrorStr := "Invalid argument" |}.

(** Small frames: a [w]-pixel row with [c] 8-bit channels, every sample
    [v]. *)
Definition row_frame (w c v : Z) : Mat :=
  {| rows := 1; cols := w; cn := c;
     mdata := Data8U (replicate (Z.to_nat w) (replicate (Z.to_nat c) v)) |}.

(** A configuration whose steps are all switched off. *)
Definition passthrough : PreprocessConfig :=
  {| target_width := 0; target_height := 0; normalize := false; rgb_conversion := false;
     mean := (f32_zero, f32_zero, f32_zero); std := (f32_one, f32_one, f32_one);
     interpolation := INTER_LINEAR |}.

Definition state0 : State :=
  {| jpeg_compressor_ := 0%nat; num_threads_ := 2; frames_processed_ := 0;
     bytes_encoded_ := 0; tid := 0%nat; tj_next := 1%nat; tj_log := [TjInit 0%nat 0%nat] |}.

(** ** Statements used by the properties *)

Section Statements.
Context `{P : Primitives}.

(** Documented behaviour of [cv::resize] with an explicit [dsize]: the
    destination has exactly that size. *)
Definition resize_contract : Prop :=
  forall src w h interp dst,
    cv_resize src w h interp = inr dst -> cols dst = w /\ rows dst = h.

(** Normalization as the specification words it, with nothing skipped:
    every sample is converted to floating point and scaled to [0,1], then
    the mean of its channel is subtracted and the difference divided by the
    std of its channel.  [mean] and [std] have three components; a channel
    past the third is only scaled. *)
Definition channel_arith (mean std : spec_float * spec_float * spec_float)
    (k c : nat) (x : spec_float) : spec_float :=
  if (c <? k)%nat then f32_div (f32_sub x (at3 mean c)) (at3 std c) else x.

Definition normalize_pixel (mean std : spec_float * spec_float * spec_float)
    (p : list spec_float) : list spec_float :=
  imap (channel_arith mean std 3) p.

Definition normalize_always (mean std : spec_float * spec_float * spec_float)
    (m : Mat) : Mat :=
  let scaled := convertTo_32F m in
  {| rows := rows scaled; cols := cols scaled; cn := cn scaled;
     mdata := match mdata scaled with
              | Data32F px => Data32F (map (normalize_pixel mean std) px)
              | Data8U px => Data8U px
              end |}.

(** The float samples of a matrix. *)
Definition float_samples (m : Mat) : list spec_float :=
  match mdata m with Data32F px => concat px | Data8U _ => [] end.

(** A client that performs the encodes of [jobs] one after the other. *)
Fixpoint encode_all (jobs : list (Mat * JPEGConfig)) : M (list ProcessedFrame) :=
  match jobs with
  | [] => mret []
  | (frame, config) :: jobs' =>
      r ← encode_jpeg frame config;
      rs ← encode_all jobs';
      mret (r :: rs)
  end.

(** Total length of the codestreams of a list of results. *)
Definition codestream_bytes (rs : list ProcessedFrame) : Z :=
  Z.of_nat (sum_list_with (fun r => length (data r)) rs).

(** The result [preprocess_for_inference] builds from what
    [preprocess_internal] evaluates to. *)
Definition preprocessed (frame : Mat) (config : PreprocessConfig) : option ProcessedFrame :=
  match preprocess_internal frame config with
  | Ok processed =>
      Some {| data := copy_out processed; width := Some (cols processed);
              height := Some (rows processed); channels := Some (cn processed);
              success := true; error_msg := "" |}
  | Throw what =>
      Some {| data := []; width := None; height := None; channels := None;
              success := false; error_msg := what |}
  | Undefined => None
  end.

(** The state after [{ lock_guard lock(stats_mutex_); frames_processed_++; }]. *)
Definition counted (s : State) : State :=
  set_stats ((frames_processed_ s + 1) mod SIZE_MOD) (bytes_encoded_ s) s.

(** Number of successful results. *)
Definition successes (rs : list ProcessedFrame) : Z :=
  Z.of_nat (length (filter (fun r => success r = true) rs)).

(** The statistics after the operations that returned [rs]: each success
    counted one frame. *)
Definition count_results (rs : list ProcessedFrame) (s : State) : State :=
  foldl (fun s r => if success r then counted s else s) s rs.

(** The results of preprocessing the frames at the indices [order], one
    after the other; [None] when one of them has undefined behaviour. *)
Fixpoint preprocess_in_order (frames : list Mat) (config : PreprocessConfig)
    (order : list nat) : option (list ProcessedFrame) :=
  match order with
  | [] => Some []
  | i :: order' =>
      match frames !! i with
      | Some frame =>
          match preprocessed frame config, preprocess_in_order frames config order' with
          | Some r, Some rs => Some (r :: rs)
          | _, _ => None
          end
      | None => preprocess_in_order frames config order'
      end
  end.

(** The result [encode_jpeg_internal] returns for [frame] on thread [t]
    through the member handle [h], and the codec calls it makes: its run
    from a blank state. *)
Definition blank (h : tjhandle) (t : nat) : State :=
  {| jpeg_compressor_ := h; num_threads_ := 0; frames_processed_ := 0;
     bytes_encoded_ := 0; tid := t; tj_next := 0%nat; tj_log := [] |}.

Definition encoded (h : tjhandle) (frame : Mat) (config : JPEGConfig) : ProcessedFrame :=
  match (encode_jpeg_internal frame config (blank h 0)).1 with
  | Ok r => r
  | _ => ProcessedFrame_zero
  end.

Definition encode_log (t : nat) (h : tjhandle) (frame : Mat) (config : JPEGConfig)
    : list tj_event :=
  tj_log (encode_jpeg_internal frame config (blank h t)).2.

(** The slots of [results] after the iterations of [sched]. *)
Definition store_results (h : tjhandle) (frames : list Mat) (config : JPEGConfig)
    (sched : schedule) (results : list ProcessedFrame) : list ProcessedFrame :=
  foldl (fun rs ti => match frames !! ti.2 with
                      | Some frame => <[ti.2 := encoded h frame config]> rs
                      | None => rs
                      end) results sched.

(** The codec calls of the iterations of [sched]. *)
Definition loop_log (h : tjhandle) (frames : list Mat) (config : JPEGConfig)
    (sched : schedule) : list tj_event :=
  flat_map (fun ti => match frames !! ti.2 with
                      | Some frame => encode_log ti.1 h frame config
                      | None => []
                      end) sched.

(** A configuration that asks for normalization with a mean, and for
    nothing else. *)
Definition mean_only : PreprocessConfig :=
  {| target_width := 0; target_height := 0; normalize := true; rgb_conversion := false;
     mean := (f32_one, f32_zero, f32_zero); std := (f32_one, f32_one, f32_one);
     interpolation := INTER_LINEAR |}.

(** The handles the threads of a team get from [tjInitCompress] when the
    next free handle is [next]. *)
Fixpoint team_locals (threads : list nat) (next : tjhandle) : list (nat * tjhandle) :=
  match threads with
  | [] => []
  | t :: threads' => (t, next) :: team_locals threads' (S next)
  end.

(** What a run of [batch_encode_jpeg] appends to the turbojpeg log. *)
Definition batch_encode_log (h next : tjhandle) (team : nat) (sched : schedule)
    (frames : list Mat) (config : JPEGConfig) : list tj_event :=
  map (fun th => TjInit th.1 th.2) (team_locals (seq 0 team) next) ++
  loop_log h frames config sched ++
  map (fun th => TjDestroy th.1 th.2) (team_locals (seq 0 team) next).

(** A float matrix. *)
Definition float_mat (r c n : Z) (px : list (list spec_float)) : Mat :=
  {| rows := r; cols := c; cn := n; mdata := Data32F px |}.

(** Documented behaviour of [cv::cvtColor]: the destination has the size
    of the source. *)
Definition color_contract : Prop :=
  forall m code m', cvtColor m code = inr m' -> rows m' = rows m /\ cols m' = cols m.


(** The results of the iterations of [sched], in the order in which they
    are carried out. *)
Definition schedule_results (h : tjhandle) (frames : list Mat) (config : JPEGConfig)
    (sched : schedule) : list ProcessedFrame :=
  omap (fun ti => (fun frame => encoded h frame config) <$> frames !! ti.2) sched.

(** The two counters after the encodes that returned [rs]. *)
Definition tally (rs : list ProcessedFrame) (fp be : Z) : Z * Z :=
  foldl (fun c r => if success r
                    then ((c.1 + 1) mod SIZE_MOD,
                          (c.2 + Z.of_nat (length (data r))) mod SIZE_MOD)
                    else c) (fp, be) rs.

End Statements.

(** ** Python bindings (python_bindings.cpp) *)

(** A [py::array_t<uint8_t>] in C order: its shape and its buffer. *)
Record ndarray : Type := mkArray {
  shape : list Z;
  buf : list Z
}.

(** The pixels a [cv::Mat(rows, cols, type, ptr)] of [c] 8-bit channels
    sees through [ptr]: pixel [k] is the [c] bytes at offset [k * c].  Past
    the end of the buffer the model has no sample. *)
Definition view_pixels (n c : nat) (bytes : list Z) : list (list Z) :=
  map (fun k => take c (drop (k * c) bytes)) (seq 0 n).

(** [numpy_to_mat]. *)
Definition numpy_to_mat (input : ndarray) : outcome Mat :=
  match shape input with
  | [h; w] =>
      Ok {| rows := h; cols := w; cn := 1;
            mdata := Data8U (view_pixels (Z.to_nat (h * w)) 1 (buf input)) |}
  | [h; w; _] =>
      Ok {| rows := h; cols := w; cn := 3;
            mdata := Data8U (view_pixels (Z.to_nat (h * w)) 3 (buf input)) |}
  | _ => Throw "Unsupported array dimensions"
  end.

(** [mat_to_numpy]: the array copies [cols * channels] bytes from each row,
    rows being [mat.step] bytes apart. *)
Definition mat_to_numpy (mat : Mat) : ndarray :=
  let step := Z.to_nat (cols mat * elemSize mat) in
  {| shape := if cn mat =? 1 then [rows mat; cols mat]
              else [rows mat; cols mat; cn mat];
     buf := flat_map (fun i => take (Z.to_nat (cols mat * cn mat))
                                    (drop (i * step) (mat_bytes mat)))
                     (seq 0 (Z.to_nat (rows mat))) |}.



Section Bindings.
Context `{P : Primitives}.






(** [PyFrameProcessor::bgr_to_rgb], [PyFrameProcessor::rgb_to_bgr]. *)
Definition py_bgr_to_rgb (frame : ndarray) : outcome ndarray :=
  mat ← numpy_to_mat frame;
  rgb ← bgr_to_rgb mat;
  Ok (mat_to_numpy rgb).
Definition py_rgb_to_bgr (frame : ndarray) : outcome ndarray :=
  mat ← numpy_to_mat frame;
  bgr ← rgb_to_bgr mat;
  Ok (mat_to_numpy bgr).

End Bindings.

(** The promise a queued closure captured. *)
Definition promise_of (t : task) : nat :=
  match t with
  | PreprocessTask _ _ promise => promise
  | EncodeTask _ _ promise => promise
  end.

(** * Properties *)

Ltac run_M :=
  unfold try_catch, mbind, M_bind, mret, M_ret, lift, throw, call; simpl.

Section EncodeFacts.
Context `{P : Primitives}.

(** [encode_jpeg_internal] in direct style. *)
Lemma encode_jpeg_internal_run (frame : Mat) (config : JPEGConfig) (s : State) :
  encode_jpeg_internal frame config s =
  let result := set_success true
                  (set_geometry (cols frame) (rows frame) (cn frame) ProcessedFrame_local) in
  let failed what := set_error_msg what (set_success false result) in
  let flags := if optimize config then TJFLAG_FASTDCT else 0 in
  match (if cn frame =? 4 then cvtColor frame COLOR_BGRA2BGR else inr frame) with
  | inl what => (Ok (failed what), s)
  | inr bgr =>
      if (cn bgr =? 1) || (cn bgr =? 3) then
        let pf := if cn bgr =? 1 then TJPF_GRAY else TJPF_BGR in
        let out := tjCompress2 (jpeg_compressor_ s) bgr pf
                     (subsample config) (quality config) flags in
        let s1 := set_tj (tj_next s)
                    (tj_log s ++ [TjCompress (tid s) (jpeg_compressor_ s) bgr pf
                                    (subsample config) (quality config) flags]) s in
        if out.1 =? 0 then
          (Ok (set_data out.2 result),
           set_stats ((frames_processed_ s + 1) mod SIZE_MOD)
                     ((bytes_encoded_ s + Z.of_nat (length out.2)) mod SIZE_MOD) s1)
        else (Ok (failed ("turbojpeg compression failed: " +:+ tjGetErrorStr)), s1)
      else (Ok (failed "Unsupported channel count"), s)
  end.
Proof.
  unfold encode_jpeg_internal. run_M.
  destruct (cn frame =? 4); [destruct (cvtColor frame COLOR_BGRA2BGR) as [w|bgr]|];
    simpl; try reflexivity.
  - destruct (cn bgr =? 1); [|destruct (cn bgr =? 3)]; simpl; try reflexivity;
      unfold compress; simpl;
      match goal with |- context [tjCompress2 ?a ?b ?c ?d ?e ?f] =>
        destruct (tjCompress2 a b c d e f) as [ret jpeg] end;
      simpl; destruct (ret =? 0); reflexivity.
  - destruct (cn frame =? 1); [|destruct (cn frame =? 3)]; simpl; try reflexivity;
      unfold compress; simpl;
      match goal with |- context [tjCompress2 ?a ?b ?c ?d ?e ?f] =>
        destruct (tjCompress2 a b c d e f) as [ret jpeg] end;
      simpl; destruct (ret =? 0); reflexivity.
Qed.

(** C6.  Channel dispatch of the encoder: a 1- or 3-channel buffer is
    passed as it is to the codec (as GRAY or BGR); a 4-channel buffer is
    passed after its reduction to 3 channels; in both cases the encode
    succeeds exactly when the codec reports success.  Any other channel
    count gives [success = false] with the message "Unsupported channel
    count", and neither the codec log nor the statistics change. *)
Theorem encode_channel_dispatch (frame : Mat) (config : JPEGConfig) (s : State) :
  let h := jpeg_compressor_ s in
  let flags := if optimize config then TJFLAG_FASTDCT else 0 in
  let codec m pf := tjCompress2 h m pf (subsample config) (quality config) flags in
  let invoked m pf := TjCompress (tid s) h m pf (subsample config) (quality config) flags in
  (cn frame = 1 \/ cn frame = 3 ->
     let pf := if cn frame =? 1 then TJPF_GRAY else TJPF_BGR in
     exists r s', encode_jpeg frame config s = (Ok r, s') /\
       tj_log s' = tj_log s ++ [invoked frame pf] /\
       (success r = true <-> (codec frame pf).1 = 0) /\
       (success r = true -> data r = (codec frame pf).2)) /\
  (cn frame = 4 ->
     forall bgr, cvtColor frame COLOR_BGRA2BGR = inr bgr -> cn bgr = 3 ->
     exists r s', encode_jpeg frame config s = (Ok r, s') /\
       tj_log s' = tj_log s ++ [invoked bgr TJPF_BGR] /\
       (success r = true <-> (codec bgr TJPF_BGR).1 = 0) /\
       (success r = true -> data r = (codec bgr TJPF_BGR).2)) /\
  (cn frame <> 1 -> cn frame <> 3 -> cn frame <> 4 ->
     exists r, encode_jpeg frame config s = (Ok r, s) /\
       success r = false /\ error_msg r = "Unsupported channel count" /\ data r = []).
Proof.
  intros h flags codec invoked.
  unfold encode_jpeg. rewrite encode_jpeg_internal_run. cbv zeta.
  fold h flags. split; [|split].
  - intros Hc. set (pf := if cn frame =? 1 then TJPF_GRAY else TJPF_BGR).
    assert (H4 : (cn frame =? 4) = false) by (apply Z.eqb_neq; lia).
    assert (H13 : ((cn frame =? 1) || (cn frame =? 3)) = true)
      by (destruct Hc as [-> | ->]; reflexivity).
    rewrite H4, H13. fold pf. fold (codec frame pf). fold (invoked frame pf).
    destruct ((codec frame pf).1 =? 0) eqn:Hret.
    + eexists _, _. split; [reflexivity|]. simpl. apply Z.eqb_eq in Hret. tauto.
    + eexists _, _. split; [reflexivity|]. simpl. apply Z.eqb_neq in Hret.
      repeat split; intros; try discriminate; tauto.
  - intros Hc bgr Hbgr Hcn.
    assert (H4 : (cn frame =? 4) = true) by (apply Z.eqb_eq; lia).
    rewrite H4, Hbgr, Hcn. simpl orb. cbv iota.
    change (if 3 =? 1 then TJPF_GRAY else TJPF_BGR) with TJPF_BGR.
    fold (codec bgr TJPF_BGR). fold (invoked bgr TJPF_BGR).
    destruct ((codec bgr TJPF_BGR).1 =? 0) eqn:Hret.
    + eexists _, _. split; [reflexivity|]. simpl. apply Z.eqb_eq in Hret. tauto.
    + eexists _, _. split; [reflexivity|]. simpl. apply Z.eqb_neq in Hret.
      repeat split; intros; try discriminate; tauto.
  - intros H1 H3 H4.
    apply Z.eqb_neq in H1, H3, H4. rewrite H4, H1, H3. simpl.
    eexists. split; [reflexivity|]. simpl. auto.
Qed.

(** C10.  Encoding a 4-channel buffer always returns a result whose
    [channels] field is 4, the channel count of the input; when the encode
    succeeds, its codestream is the one the codec produced from the buffer
    that the alpha-dropping conversion returned. *)
Theorem encode_reports_input_channels (frame : Mat) (config : JPEGConfig) (s : State) :
  cn frame = 4 ->
  exists r s', encode_jpeg frame config s = (Ok r, s') /\
    channels r = Some 4 /\
    (success r = true ->
       exists bgr pf,
         cvtColor frame COLOR_BGRA2BGR = inr bgr /\
         tj_log s' = tj_log s ++
           [TjCompress (tid s) (jpeg_compressor_ s) bgr pf (subsample config)
              (quality config) (if optimize config then TJFLAG_FASTDCT else 0)] /\
         data r = (tjCompress2 (jpeg_compressor_ s) bgr pf (subsample config)
                     (quality config) (if optimize config then TJFLAG_FASTDCT else 0)).2).
Proof.
  intros Hc. unfold encode_jpeg. rewrite encode_jpeg_internal_run. cbv zeta.
  assert (H4 : (cn frame =? 4) = true) by (apply Z.eqb_eq; lia).
  rewrite H4, Hc.
  destruct (cvtColor frame COLOR_BGRA2BGR) as [w|bgr].
  { eexists _, _. split; [reflexivity|]. simpl. split; [reflexivity|discriminate]. }
  destruct ((cn bgr =? 1) || (cn bgr =? 3)).
  2:{ eexists _, _. split; [reflexivity|]. simpl. split; [reflexivity|discriminate]. }
  match goal with |- context [if ?c =? 0 then _ else _] => destruct (c =? 0) end.
  - eexists _, _. split; [reflexivity|]. simpl. split; [reflexivity|].
    intros _. eexists _, _. repeat split.
  - eexists _, _. split; [reflexivity|]. simpl. split; [reflexivity|discriminate].
Qed.

End EncodeFacts.

(** A 4-channel row through the encoder. *)
Lemma encode_channel_dispatch_witness :
  exists r s',
    encode_jpeg (P := sample_prims) (row_frame 2 4 10) default_JPEGConfig state0 = (Ok r, s') /\
    success r = true /\ data r = [255; 216; 10; 10; 10; 10; 10; 10; 255; 217].
Proof.
  destruct (encode_channel_dispatch (P := sample_prims) (row_frame 2 4 10)
              default_JPEGConfig state0) as (_ & H4 & _).
  destruct (H4 eq_refl _ eq_refl eq_refl) as (r & s' & Hrun & _ & Hs & Hd).
  exists r, s'. split; [exact Hrun|].
  split; [apply Hs; reflexivity | rewrite Hd; [reflexivity | apply Hs; reflexivity]].
Defined.

(** The channel count reported for a 4-channel row. *)
Lemma encode_reports_input_channels_witness :
  exists r s',
    encode_jpeg (P := sample_prims) (row_frame 2 4 10) default_JPEGConfig state0 = (Ok r, s') /\
    channels r = Some 4.
Proof.
  destruct (encode_reports_input_channels (P := sample_prims) (row_frame 2 4 10)
              default_JPEGConfig state0 eq_refl) as (r & s' & Hrun & Hch & _).
  exists r, s'. split; [exact Hrun | exact Hch].
Defined.

Section SingleFrameFacts.
Context `{P : Primitives}.

(** [resize_frame] in direct style. *)
Lemma resize_frame_run (frame : Mat) (w h interp : Z) (s : State) :
  resize_frame frame w h interp s =
  match cv_resize frame w h interp with
  | inr resized =>
      (Ok {| data := copy_out resized; width := Some w; height := Some h;
             channels := Some (cn frame); success := true; error_msg := "" |},
       counted s)
  | inl what =>
      (Ok {| data := []; width := Some w; height := Some h;
             channels := Some (cn frame); success := false; error_msg := what |}, s)
  end.
Proof.
  unfold resize_frame. run_M.
  destruct (cv_resize frame w h interp); reflexivity.
Qed.

(** [preprocess_for_inference] in direct style. *)
Lemma preprocess_for_inference_run (frame : Mat) (config : PreprocessConfig) (s : State) :
  preprocess_for_inference frame config s =
  match preprocessed frame config with
  | Some r => (Ok r, if success r then counted s else s)
  | None => (Undefined, s)
  end.
Proof.
  unfold preprocess_for_inference, preprocessed. run_M.
  destruct (preprocess_internal frame config); reflexivity.
Qed.

(** C8.  Under the documented contract of [cv::resize], [resize_frame]
    either reports the failure of the resize ([success = false] with its
    message) or succeeds with [width = w], [height = h] and, as data, the
    bytes of the matrix the resize produced, whose geometry is [w] by [h]. *)
Theorem resize_frame_geometry (frame : Mat) (w h interp : Z) (s : State) :
  resize_contract ->
  exists r s', resize_frame frame w h interp s = (Ok r, s') /\
    ((success r = false /\ cv_resize frame w h interp = inl (error_msg r)) \/
     (success r = true /\ width r = Some w /\ height r = Some h /\
      exists resized, cv_resize frame w h interp = inr resized /\
        cols resized = w /\ rows resized = h /\ data r = copy_out resized)).
Proof.
  intros Hc. rewrite resize_frame_run.
  destruct (cv_resize frame w h interp) as [what|resized] eqn:Hr.
  - eexists _, _. split; [reflexivity|]. left. simpl. auto.
  - destruct (Hc _ _ _ _ _ Hr) as [Hw Hh].
    eexists _, _. split; [reflexivity|]. right. simpl.
    repeat split. exists resized. auto.
Qed.

(** C3 (amended).  With a zero or negative target width or height the
    resize is skipped and no error is raised for it: preprocessing goes on
    with colour conversion and normalization on the frame at its original
    size, a failure is reported only when one of these two steps throws,
    and with both switched off the call succeeds with the geometry and the
    bytes of the input frame. *)
Theorem preprocess_nonpositive_target_skips_resize (frame : Mat) (config : PreprocessConfig) :
  target_width config <= 0 \/ target_height config <= 0 ->
  preprocess_internal frame config = (color_step frame config frame ≫= normalize_step config) /\
  (forall s r s', preprocess_for_inference frame config s = (Ok r, s') ->
     success r = false ->
     (color_step frame config frame ≫= normalize_step config) = Throw (error_msg r)) /\
  (rgb_conversion config = false -> normalize config = false ->
   forall s, preprocess_for_inference frame config s =
     (Ok {| data := copy_out frame; width := Some (cols frame);
            height := Some (rows frame); channels := Some (cn frame);
            success := true; error_msg := "" |}, counted s)).
Proof.
  intros Hdim.
  assert (Hskip : resize_step config frame = Ok frame).
  { unfold resize_step.
    replace ((0 <? target_width config) && (0 <? target_height config)) with false;
      [reflexivity|].
    symmetry. apply andb_false_iff.
    destruct Hdim; [left | right]; apply Z.ltb_ge; assumption. }
  assert (Heq : preprocess_internal frame config =
                (color_step frame config frame ≫= normalize_step config)).
  { unfold preprocess_internal. rewrite Hskip. reflexivity. }
  split; [exact Heq|]. split.
  - intros s r s'. rewrite preprocess_for_inference_run. unfold preprocessed.
    rewrite Heq.
    destruct (color_step frame config frame ≫= normalize_step config);
      simpl; intros Hrun Hfail; inversion Hrun; subst; simpl in *;
      try discriminate; reflexivity.
  - intros Hrgb Hnorm s. rewrite preprocess_for_inference_run. unfold preprocessed.
    rewrite Heq. unfold color_step, normalize_step. rewrite Hrgb, Hnorm. reflexivity.
Qed.

End SingleFrameFacts.

(** The concrete resize meets the contract. *)
Lemma sample_resize_contract : resize_contract (P := sample_prims).
Proof.
  intros src w h interp dst. simpl. unfold sample_resize.
  destruct (mat_empty src || (w <=? 0) || (h <=? 0)); [discriminate|].
  intros Hdst. inversion Hdst. simpl. auto.
Qed.

(** A two-pixel row resized to one pixel. *)
Lemma resize_frame_geometry_witness :
  exists r s',
    resize_frame (P := sample_prims) (row_frame 2 3 10) 1 1 INTER_LINEAR state0 = (Ok r, s') /\
    success r = true /\ width r = Some 1 /\ height r = Some 1 /\ data r = [10; 10; 10].
Proof.
  destruct (resize_frame_geometry (P := sample_prims) (row_frame 2 3 10) 1 1 INTER_LINEAR
              state0 sample_resize_contract) as (r & s' & Hrun & Hcase).
  exists r, s'. split; [exact Hrun|].
  rewrite resize_frame_run in Hrun. vm_compute in Hrun. inversion Hrun. subst r.
  repeat split.
Defined.

(** C3 as stated fails: a call with target width and height 0 succeeds. *)
Lemma preprocess_nonpositive_target_no_error :
  ~ (forall (P : Primitives) frame config s,
       target_width config <= 0 \/ target_height config <= 0 ->
       exists r s', preprocess_for_inference frame config s = (Ok r, s') /\
                    success r = false).
Proof.
  intros H.
  destruct (H sample_prims (row_frame 1 1 7) passthrough state0) as (r & s' & Hrun & Hs).
  { left. simpl. lia. }
  vm_compute in Hrun. inversion Hrun. subst r. discriminate Hs.
Qed.

(** A one-pixel frame through a configuration with target size 0 x 0. *)
Lemma preprocess_nonpositive_target_skips_resize_witness :
  preprocess_for_inference (P := sample_prims) (row_frame 1 1 7) passthrough state0 =
    (Ok {| data := [7]; width := Some 1; height := Some 1; channels := Some 1;
           success := true; error_msg := "" |}, counted state0).
Proof.
  destruct (preprocess_nonpositive_target_skips_resize (P := sample_prims)
              (row_frame 1 1 7) passthrough) as (_ & _ & H).
  { left. simpl. lia. }
  exact (H eq_refl eq_refl state0).
Defined.

Section Statistics.
Context `{P : Primitives}.

(** One encode: it returns a result; on success both counters advance, by
    one frame and by the length of the codestream; on failure the counters
    and the result's data are untouched. *)
Lemma encode_jpeg_stats (frame : Mat) (config : JPEGConfig) (s : State) :
  exists r s', encode_jpeg frame config s = (Ok r, s') /\
    (success r = true ->
       frames_processed_ s' = (frames_processed_ s + 1) mod SIZE_MOD /\
       bytes_encoded_ s' = (bytes_encoded_ s + Z.of_nat (length (data r))) mod SIZE_MOD) /\
    (success r = false ->
       frames_processed_ s' = frames_processed_ s /\
       bytes_encoded_ s' = bytes_encoded_ s /\ data r = []).
Proof.
  unfold encode_jpeg. rewrite encode_jpeg_internal_run. cbv zeta.
  destruct (if cn frame =? 4 then cvtColor frame COLOR_BGRA2BGR else inr frame) as [w|bgr].
  { eexists _, _. split; [reflexivity|]. simpl. split; [discriminate|auto]. }
  destruct ((cn bgr =? 1) || (cn bgr =? 3)).
  2:{ eexists _, _. split; [reflexivity|]. simpl. split; [discriminate|auto]. }
  match goal with |- context [if ?c =? 0 then _ else _] => destruct (c =? 0) end.
  - eexists _, _. split; [reflexivity|]. simpl. split; [auto|discriminate].
  - eexists _, _. split; [reflexivity|]. simpl. split; [discriminate|auto].
Qed.

(** [resize_frame] and [preprocess_for_inference] count a frame exactly
    when they succeed. *)
Lemma resize_frame_stats (frame : Mat) (w h interp : Z) (s : State) :
  exists r s', resize_frame frame w h interp s = (Ok r, s') /\
    s' = (if success r then counted s else s).
Proof.
  rewrite resize_frame_run.
  destruct (cv_resize frame w h interp); eexists _, _; split; reflexivity.
Qed.

Lemma preprocess_for_inference_stats (frame : Mat) (config : PreprocessConfig)
    (s : State) r s' :
  preprocess_for_inference frame config s = (Ok r, s') ->
  s' = (if success r then counted s else s).
Proof.
  rewrite preprocess_for_inference_run.
  destruct (preprocessed frame config); intros H; inversion H; reflexivity.
Qed.

(** A run of encodes returns one result per job, and the counters advance
    (modulo [2^64]) by the number of successes and by the bytes produced. *)
Lemma encode_all_stats (jobs : list (Mat * JPEGConfig)) (s : State) :
  exists rs s', encode_all jobs s = (Ok rs, s') /\
    length rs = length jobs /\
    frames_processed_ s' mod SIZE_MOD = (frames_processed_ s + successes rs) mod SIZE_MOD /\
    bytes_encoded_ s' mod SIZE_MOD = (bytes_encoded_ s + codestream_bytes rs) mod SIZE_MOD.
Proof.
  revert s. induction jobs as [|[frame config] jobs IH]; intros s.
  - exists [], s. simpl. unfold successes, codestream_bytes. simpl.
    rewrite !Z.add_0_r. auto.
  - destruct (encode_jpeg_stats frame config s) as (r & s1 & Hr & Hok & Hfail).
    destruct (IH s1) as (rs & s2 & Hrs & Hlen & Hfp & Hbe).
    exists (r :: rs), s2. split.
    { simpl. unfold mbind, M_bind. rewrite Hr, Hrs. reflexivity. }
    split; [simpl; congruence|].
    rewrite Hfp, Hbe. unfold successes, codestream_bytes.
    rewrite filter_cons. simpl sum_list_with.
    destruct (success r) eqn:Hs.
    + destruct (Hok eq_refl) as [-> ->].
      rewrite decide_True by reflexivity. simpl length.
      rewrite !Z.add_mod_idemp_l by (unfold SIZE_MOD; lia).
      split; f_equal; lia.
    + destruct (Hfail eq_refl) as (-> & -> & ->).
      rewrite decide_False by discriminate. simpl length.
      split; f_equal; lia.
Qed.

(** C7.  Each single-frame operation counts exactly its successes: a
    successful [resize_frame] or [preprocess_for_inference] advances
    [frames_processed] by one, a successful encode advances it by one and
    [bytes_encoded] by the length of the codestream, and a failed operation
    leaves both counters as they were.  After [reset_stats], a run of
    encodes returns one result per encode; when all K of them succeed (K
    and the total number of bytes being below [2^64], the range of the
    [size_t] counters), [frames_processed] is K and [bytes_encoded] is the
    sum of the lengths of the K codestreams. *)
Theorem encode_statistics_exact (jobs : list (Mat * JPEGConfig)) (s : State) :
  (forall frame w h interp s0, exists r s1,
     resize_frame frame w h interp s0 = (Ok r, s1) /\
     s1 = (if success r then counted s0 else s0)) /\
  (forall frame config s0 r s1,
     preprocess_for_inference frame config s0 = (Ok r, s1) ->
     s1 = (if success r then counted s0 else s0)) /\
  (forall frame config s0, exists r s1,
     encode_jpeg frame config s0 = (Ok r, s1) /\
     (success r = true ->
        frames_processed_ s1 = (frames_processed_ s0 + 1) mod SIZE_MOD /\
        bytes_encoded_ s1 =
          (bytes_encoded_ s0 + Z.of_nat (length (data r))) mod SIZE_MOD) /\
     (success r = false ->
        frames_processed_ s1 = frames_processed_ s0 /\
        bytes_encoded_ s1 = bytes_encoded_ s0)) /\
  exists rs s', encode_all jobs (reset_stats s) = (Ok rs, s') /\
    length rs = length jobs /\
    (Forall (fun r => success r = true) rs ->
     Z.of_nat (length jobs) < SIZE_MOD -> codestream_bytes rs < SIZE_MOD ->
     get_frames_processed s' = Z.of_nat (length jobs) /\
     get_bytes_encoded s' = codestream_bytes rs).
Proof.
  split; [intros; apply resize_frame_stats|].
  split; [intros frame config s0 r s1; apply preprocess_for_inference_stats|].
  split.
  { intros frame config s0.
    destruct (encode_jpeg_stats frame config s0) as (r & s1 & Hr & Hok & Hfail).
    exists r, s1. split; [exact Hr|]. split; [exact Hok|].
    intros Hf. destruct (Hfail Hf) as (? & ? & _). auto. }
  destruct (encode_all_stats jobs (reset_stats s)) as (rs & s' & Hrun & Hlen & Hfp & Hbe).
  exists rs, s'. split; [exact Hrun|]. split; [exact Hlen|].
  intros Hall HK Hbytes.
  assert (Hsucc : successes rs = Z.of_nat (length jobs)).
  { unfold successes. rewrite <- Hlen. f_equal. f_equal.
    clear -Hall. induction Hall as [|r rs Hr Hall IH]; [reflexivity|].
    rewrite filter_cons, decide_True by exact Hr. simpl. rewrite IH. reflexivity. }
  simpl in Hfp, Hbe. rewrite Hsucc in Hfp.
  assert (Hrange : forall jobs' s0 rs0 s0',
            encode_all jobs' s0 = (Ok rs0, s0') ->
            0 <= frames_processed_ s0 < SIZE_MOD -> 0 <= bytes_encoded_ s0 < SIZE_MOD ->
            0 <= frames_processed_ s0' < SIZE_MOD /\ 0 <= bytes_encoded_ s0' < SIZE_MOD).
  { clear. induction jobs' as [|[frame config] jobs' IH]; intros s0 rs0 s0' Hrun Hf Hb.
    - inversion Hrun. subst. auto.
    - simpl in Hrun. unfold mbind, M_bind in Hrun.
      destruct (encode_jpeg_stats frame config s0) as (r & s1 & Hr & Hok & Hfail).
      rewrite Hr in Hrun.
      destruct (encode_all jobs' s1) as [[rs1| |] s2] eqn:Hrest; try discriminate.
      inversion Hrun. subst.
      apply (IH _ _ _ Hrest).
      + destruct (success r); [destruct (Hok eq_refl) as [-> _] | destruct (Hfail eq_refl) as [-> _]];
          [apply Z.mod_pos_bound; unfold SIZE_MOD; lia | exact Hf].
      + destruct (success r); [destruct (Hok eq_refl) as [_ ->] | destruct (Hfail eq_refl) as (_ & -> & _)];
          [apply Z.mod_pos_bound; unfold SIZE_MOD; lia | exact Hb]. }
  destruct (Hrange _ _ _ _ Hrun) as [Hf Hb]; [simpl; unfold SIZE_MOD; lia ..|].
  unfold get_frames_processed, get_bytes_encoded.
  rewrite Z.mod_small in Hfp by exact Hf. rewrite Z.mod_small in Hbe by exact Hb.
  rewrite Hfp, Hbe.
  split; apply Z.mod_small.
  - lia.
  - unfold codestream_bytes in *. lia.
Qed.

End Statistics.

(** Two successful encodes after a reset. *)
Lemma encode_statistics_exact_witness :
  exists rs s',
    encode_all (P := sample_prims)
      [(row_frame 1 1 10, default_JPEGConfig); (row_frame 2 3 9, default_JPEGConfig)]
      (reset_stats state0) = (Ok rs, s') /\
    get_frames_processed s' = 2 /\ get_bytes_encoded s' = 15.
Proof.
  destruct (encode_statistics_exact (P := sample_prims)
              [(row_frame 1 1 10, default_JPEGConfig); (row_frame 2 3 9, default_JPEGConfig)]
              state0) as (_ & _ & _ & rs & s' & Hrun & Hlen & Hstats).
  exists rs, s'. split; [exact Hrun|].
  vm_compute in Hrun. inversion Hrun. subst rs s'.
  destruct Hstats as [Hfp Hbe].
  - repeat constructor.
  - vm_compute. reflexivity.
  - vm_compute. reflexivity.
  - split; [exact Hfp | exact Hbe].
Defined.

Section BatchFacts.
Context `{P : Primitives}.

Lemma set_tid_back (t : nat) (s : State) : set_tid (tid s) (set_tid t s) = s.
Proof. destruct s. reflexivity. Qed.

Lemma set_tid_counted (t : nat) (s : State) :
  set_tid (tid s) (counted (set_tid t s)) = counted s.
Proof. destruct s. reflexivity. Qed.

(** One iteration of the preprocessing loop on thread [t]. *)
Lemma preprocess_on_thread (t : nat) (frame : Mat) (config : PreprocessConfig) (s : State) :
  on_thread t (preprocess_for_inference frame config) s =
  match preprocessed frame config with
  | Some r => (Ok r, if success r then counted s else s)
  | None => (Undefined, s)
  end.
Proof.
  unfold on_thread. rewrite preprocess_for_inference_run.
  destruct (preprocessed frame config) as [r|].
  - destruct (success r); [rewrite set_tid_counted | rewrite set_tid_back]; reflexivity.
  - rewrite set_tid_back. reflexivity.
Qed.

(** [batch_preprocess] returns the per-frame results in the order of the
    schedule. *)
Lemma batch_preprocess_loop_defined (frames : list Mat) (config : PreprocessConfig)
    (sched : schedule) (acc rs : list ProcessedFrame) (s : State) :
  preprocess_in_order frames config sched.*2 = Some rs ->
  batch_preprocess_loop frames config sched acc s = (Ok (acc ++ rs), count_results rs s).
Proof.
  revert acc rs s. induction sched as [|[t i] sched IH]; intros acc rs s;
    [|rewrite fmap_cons]; cbn [batch_preprocess_loop preprocess_in_order snd].
  - intros [= <-]. rewrite app_nil_r. reflexivity.
  - destruct (frames !! i) as [frame|]; [|apply IH].
    unfold mbind at 1, M_bind. rewrite preprocess_on_thread.
    destruct (preprocessed frame config) as [r|]; [|intros [=]].
    destruct (preprocess_in_order frames config sched.*2) as [rs'|] eqn:Hrest;
      [|intros [=]].
    intros Hrs. injection Hrs as <-.
    rewrite (IH _ _ _ eq_refl). rewrite <- app_assoc. reflexivity.
Qed.

Lemma batch_preprocess_loop_undefined (frames : list Mat) (config : PreprocessConfig)
    (sched : schedule) (acc : list ProcessedFrame) (s : State) :
  preprocess_in_order frames config sched.*2 = None ->
  (batch_preprocess_loop frames config sched acc s).1 = Undefined.
Proof.
  revert acc s. induction sched as [|[t i] sched IH]; intros acc s;
    [|rewrite fmap_cons]; cbn [batch_preprocess_loop preprocess_in_order snd].
  - discriminate.
  - destruct (frames !! i) as [frame|]; [|apply IH].
    unfold mbind at 1, M_bind. rewrite preprocess_on_thread.
    destruct (preprocessed frame config) as [r|]; [|reflexivity].
    destruct (preprocess_in_order frames config sched.*2) as [rs'|] eqn:Hrest;
      [intros [=]|].
    intros _. apply IH. reflexivity.
Qed.

(** C1 (the code at a failing input).  Two frames of widths 1 and 2, and
    the schedule in which iteration 1 reaches the critical section before
    iteration 0: [batch_preprocess] returns the result of frame 1 in slot 0
    and the result of frame 0 in slot 1. *)
Theorem batch_preprocess_follows_schedule (s : State) :
  let frames := [row_frame 1 1 7; row_frame 2 1 7] in
  let sched := [(1, 1); (0, 0)]%nat in
  team_of (num_threads_ s) 2 ->
  valid_schedule 2 2 sched /\
  exists r0 r1 s',
    batch_preprocess sched frames passthrough s = (Ok [r0; r1], s') /\
    preprocessed (row_frame 2 1 7) passthrough = Some r0 /\
    preprocessed (row_frame 1 1 7) passthrough = Some r1 /\
    width r0 = Some 2 /\ width r1 = Some 1.
Proof.
  intros frames sched _. split.
  - split; [apply Permutation_swap | repeat constructor].
  - exists {| data := [7; 7]; width := Some 2; height := Some 1; channels := Some 1;
              success := true; error_msg := "" |},
           {| data := [7]; width := Some 1; height := Some 1; channels := Some 1;
              success := true; error_msg := "" |}.
    eexists. split.
    + unfold batch_preprocess.
      apply (batch_preprocess_loop_defined frames passthrough sched []). reflexivity.
    + repeat split.
Qed.

(** C4 (the code at a failing input).  A 1-channel frame next to a
    3-channel frame, normalized with a mean: the 3-channel frame succeeds
    on its own, the loop [for (i = 0; i < 3; i++) channels[i] = ...] on the
    single plane of the 1-channel frame indexes past the end of [channels],
    and the batch as a whole has undefined behaviour. *)
Theorem batch_preprocess_gray_undefined (s : State) :
  let frames := [row_frame 1 1 7; row_frame 1 3 7] in
  valid_schedule 1 2 (sequential 2) /\
  (exists r, preprocessed (row_frame 1 3 7) mean_only = Some r /\ success r = true) /\
  preprocess_internal (row_frame 1 1 7) mean_only = Undefined /\
  (batch_preprocess (sequential 2) frames mean_only s).1 = Undefined.
Proof.
  intros frames. split; [|split; [|split]].
  - split; [reflexivity | repeat constructor].
  - eexists. split; reflexivity.
  - reflexivity.
  - unfold batch_preprocess. apply batch_preprocess_loop_undefined. reflexivity.
Qed.

End BatchFacts.

(** The permuted batch on a processor with two threads. *)
Lemma batch_preprocess_follows_schedule_witness :
  exists r0 r1 s',
    batch_preprocess (P := sample_prims) [(1, 1); (0, 0)]%nat
      [row_frame 1 1 7; row_frame 2 1 7] passthrough state0 = (Ok [r0; r1], s') /\
    width r0 = Some 2 /\ width r1 = Some 1.
Proof.
  destruct (batch_preprocess_follows_schedule (P := sample_prims) state0)
    as (_ & r0 & r1 & s' & Hrun & _ & _ & Hw0 & Hw1).
  { split; simpl; lia. }
  exists r0, r1, s'. split; [exact Hrun|]. split; [exact Hw0 | exact Hw1].
Defined.

Section EncodeBatchFacts.
Context `{P : Primitives}.

(** The result of an encode depends on the state only through the member
    handle; the encode leaves the handle table alone and appends its codec
    calls to the log. *)
Lemma encode_jpeg_internal_effect (frame : Mat) (config : JPEGConfig) (s : State) :
  exists s', encode_jpeg_internal frame config s =
               (Ok (encoded (jpeg_compressor_ s) frame config), s') /\
    jpeg_compressor_ s' = jpeg_compressor_ s /\ tid s' = tid s /\
    tj_next s' = tj_next s /\
    tj_log s' = tj_log s ++ encode_log (tid s) (jpeg_compressor_ s) frame config.
Proof.
  unfold encoded, encode_log. rewrite !encode_jpeg_internal_run. cbv zeta.
  destruct (if cn frame =? 4 then cvtColor frame COLOR_BGRA2BGR else inr frame) as [w|bgr].
  { eexists. split; [reflexivity|]. simpl. rewrite app_nil_r. auto. }
  destruct ((cn bgr =? 1) || (cn bgr =? 3)).
  2:{ eexists. split; [reflexivity|]. simpl. rewrite app_nil_r. auto. }
  simpl jpeg_compressor_.
  match goal with |- context [if ?c =? 0 then _ else _] => destruct (c =? 0) end;
    (eexists; split; [reflexivity|]; simpl; auto).
Qed.

(** Every codec call of an encode is made by the running thread through
    the member handle. *)
Lemma encode_log_member (t : nat) (h : tjhandle) (frame : Mat) (config : JPEGConfig) :
  Forall (fun e => exists m pf a b c, e = TjCompress t h m pf a b c)
         (encode_log t h frame config).
Proof.
  unfold encode_log. rewrite encode_jpeg_internal_run. cbv zeta.
  destruct (if cn frame =? 4 then cvtColor frame COLOR_BGRA2BGR else inr frame) as [w|bgr];
    [constructor|].
  destruct ((cn bgr =? 1) || (cn bgr =? 3)); [|constructor].
  match goal with |- context [if ?c =? 0 then _ else _] => destruct (c =? 0) end;
    simpl; repeat constructor; eauto 10.
Qed.

(** A 1- or 3-channel frame reaches the codec exactly once. *)
Lemma encode_log_accepted (t : nat) (h : tjhandle) (frame : Mat) (config : JPEGConfig) :
  cn frame = 1 \/ cn frame = 3 ->
  encode_log t h frame config =
    [TjCompress t h frame (if cn frame =? 1 then TJPF_GRAY else TJPF_BGR)
       (subsample config) (quality config) (if optimize config then TJFLAG_FASTDCT else 0)].
Proof.
  intros Hc. unfold encode_log. rewrite encode_jpeg_internal_run. cbv zeta.
  assert (H4 : (cn frame =? 4) = false) by (apply Z.eqb_neq; lia).
  assert (H13 : ((cn frame =? 1) || (cn frame =? 3)) = true)
    by (destruct Hc as [-> | ->]; reflexivity).
  rewrite H4, H13.
  match goal with |- context [if ?c =? 0 then _ else _] => destruct (c =? 0) end;
    reflexivity.
Qed.

(** The work-sharing loop of [batch_encode_jpeg]. *)
Lemma batch_encode_loop_run (frames : list Mat) (config : JPEGConfig) (sched : schedule)
    (results : list ProcessedFrame) (s : State) :
  exists s', batch_encode_loop frames config sched results s =
               (Ok (store_results (jpeg_compressor_ s) frames config sched results), s') /\
    jpeg_compressor_ s' = jpeg_compressor_ s /\ tid s' = tid s /\
    tj_next s' = tj_next s /\
    tj_log s' = tj_log s ++ loop_log (jpeg_compressor_ s) frames config sched.
Proof.
  revert results s. induction sched as [|[t i] sched IH]; intros results s;
    cbn [batch_encode_loop].
  - exists s. unfold store_results, loop_log. simpl. rewrite app_nil_r. auto.
  - unfold store_results, loop_log. cbn [foldl flat_map fst snd].
    destruct (frames !! i) as [frame|]; [|apply IH].
    unfold mbind at 1, M_bind, on_thread.
    destruct (encode_jpeg_internal_effect frame config (set_tid t s))
      as (s1 & -> & Hh & Ht & Hn & Hl).
    simpl in Hh, Ht, Hn, Hl.
    destruct (IH (<[i := encoded (jpeg_compressor_ s) frame config]> results)
                 (set_tid (tid s) s1)) as (s2 & Hrun & Hh2 & Ht2 & Hn2 & Hl2).
    simpl in Hrun, Hh2, Ht2, Hn2, Hl2. rewrite Hh in Hrun, Hh2, Hl2.
    exists s2. split; [exact Hrun|].
    repeat split; try congruence.
    rewrite Hl2, Hl. rewrite <- app_assoc. reflexivity.
Qed.

End EncodeBatchFacts.

Section EncodeBatchRun.
Context `{P : Primitives}.

Lemma team_init_run (threads : list nat) (s : State) :
  exists s', team_init threads s = (Ok (team_locals threads (tj_next s)), s') /\
    jpeg_compressor_ s' = jpeg_compressor_ s /\ tid s' = tid s /\
    tj_log s' = tj_log s ++ map (fun th => TjInit th.1 th.2) (team_locals threads (tj_next s)).
Proof.
  revert s. induction threads as [|t threads IH]; intros s; cbn [team_init team_locals].
  - exists s. simpl. rewrite app_nil_r. auto.
  - unfold mbind at 1, M_bind, on_thread, tjInitCompress. simpl.
    set (s1 := set_tid (tid s) _).
    destruct (IH s1) as (s2 & Hrun & Hh & Ht & Hl).
    unfold mbind, M_bind. rewrite Hrun. subst s1. simpl in Hh, Ht, Hl |- *.
    exists s2. split; [reflexivity|]. repeat split; try assumption.
    rewrite Hl, <- app_assoc. reflexivity.
Qed.

Lemma team_destroy_run (locals : list (nat * tjhandle)) (s : State) :
  exists s', team_destroy locals s = (Ok tt, s') /\
    jpeg_compressor_ s' = jpeg_compressor_ s /\ tid s' = tid s /\
    tj_log s' = tj_log s ++ map (fun th => TjDestroy th.1 th.2) locals.
Proof.
  revert s. induction locals as [|[t h] locals IH]; intros s; cbn [team_destroy].
  - exists s. simpl. rewrite app_nil_r. auto.
  - unfold mbind at 1, M_bind, on_thread, tjDestroy. simpl.
    set (s1 := set_tid (tid s) _).
    destruct (IH s1) as (s2 & Hrun & Hh & Ht & Hl).
    subst s1. simpl in Hrun, Hh, Ht, Hl.
    exists s2. split; [exact Hrun|]. repeat split; try assumption.
    rewrite Hl, <- app_assoc. reflexivity.
Qed.

(** [batch_encode_jpeg] always returns; slot [i] holds what the iterations
    stored there, and the log grows by the handle acquisitions of the team,
    the codec calls of the iterations and the releases. *)
Lemma batch_encode_jpeg_run (team : nat) (sched : schedule) (frames : list Mat)
    (config : JPEGConfig) (s : State) :
  exists s', batch_encode_jpeg team sched frames config s =
      (Ok (store_results (jpeg_compressor_ s) frames config sched
             (replicate (length frames) ProcessedFrame_zero)), s') /\
    tj_log s' = tj_log s ++
      batch_encode_log (jpeg_compressor_ s) (tj_next s) team sched frames config.
Proof.
  unfold batch_encode_jpeg, batch_encode_log.
  destruct (team_init_run (seq 0 team) s) as (s1 & Hinit & Hh1 & Ht1 & Hl1).
  destruct (batch_encode_loop_run frames config sched
              (replicate (length frames) ProcessedFrame_zero) s1)
    as (s2 & Hloop & Hh2 & Ht2 & Hn2 & Hl2).
  destruct (team_destroy_run (team_locals (seq 0 team) (tj_next s)) s2)
    as (s3 & Hdestroy & Hh3 & Ht3 & Hl3).
  exists s3. unfold mbind, M_bind. rewrite Hinit, Hloop, Hdestroy. simpl.
  rewrite Hh1. split; [reflexivity|].
  rewrite Hl3, Hl2, Hl1, Hh1, <- !app_assoc. reflexivity.
Qed.

Lemma store_results_cons (h : tjhandle) (frames : list Mat) (config : JPEGConfig)
    (t i : nat) (sched : schedule) (results : list ProcessedFrame) :
  store_results h frames config ((t, i) :: sched) results =
  store_results h frames config sched
    (match frames !! i with
     | Some frame => <[i := encoded h frame config]> results
     | None => results
     end).
Proof. reflexivity. Qed.

(** Slot [j] after the iterations of a schedule. *)
Lemma store_results_lookup (h : tjhandle) (frames : list Mat) (config : JPEGConfig)
    (sched : schedule) (results : list ProcessedFrame) (j : nat) :
  length results = length frames ->
  store_results h frames config sched results !! j =
    if bool_decide (j ∈ sched.*2)
    then (fun frame => encoded h frame config) <$> frames !! j
    else results !! j.
Proof.
  revert results. induction sched as [|[t i] sched IH]; intros results Hlen.
  - reflexivity.
  - rewrite store_results_cons, fmap_cons. cbn [snd].
    destruct (frames !! i) as [frame|] eqn:Hi.
    + rewrite IH by (rewrite length_insert; exact Hlen).
      destruct (bool_decide (j ∈ sched.*2)) eqn:Hj.
      * apply bool_decide_eq_true in Hj.
        rewrite bool_decide_eq_true_2 by (right; exact Hj). reflexivity.
      * apply bool_decide_eq_false in Hj.
        destruct (decide (j = i)) as [->|Hne].
        -- rewrite bool_decide_eq_true_2 by left.
           rewrite list_lookup_insert_eq, Hi; [reflexivity|].
           rewrite Hlen. apply lookup_lt_Some in Hi. exact Hi.
        -- rewrite bool_decide_eq_false_2 by (intros [?|?]%elem_of_cons; tauto).
           apply list_lookup_insert_ne. congruence.
    + rewrite IH by exact Hlen.
      destruct (bool_decide (j ∈ sched.*2)) eqn:Hj.
      * apply bool_decide_eq_true in Hj.
        rewrite bool_decide_eq_true_2 by (right; exact Hj). reflexivity.
      * apply bool_decide_eq_false in Hj.
        destruct (decide (j = i)) as [->|Hne].
        -- rewrite bool_decide_eq_true_2 by left.
           rewrite Hi. simpl. apply lookup_ge_None_2.
           rewrite Hlen. apply lookup_ge_None_1. exact Hi.
        -- rewrite bool_decide_eq_false_2 by (intros [?|?]%elem_of_cons; tauto).
           reflexivity.
Qed.

Lemma store_results_length (h : tjhandle) (frames : list Mat) (config : JPEGConfig)
    (sched : schedule) (results : list ProcessedFrame) :
  length (store_results h frames config sched results) = length results.
Proof.
  revert results. induction sched as [|[t i] sched IH]; intros results; [reflexivity|].
  rewrite store_results_cons.
  destruct (frames !! i); rewrite IH; [apply length_insert | reflexivity].
Qed.

(** Under every schedule that runs each iteration once, [batch_encode_jpeg]
    returns one result per frame, slot [i] holding the result of encoding
    frame [i]: the encode batch keeps the input order, and a frame's result
    does not depend on its siblings. *)
Lemma batch_encode_jpeg_in_order (team : nat) (sched : schedule) (frames : list Mat)
    (config : JPEGConfig) (s : State) :
  valid_schedule team (length frames) sched ->
  exists s', batch_encode_jpeg team sched frames config s =
    (Ok (map (fun frame => encoded (jpeg_compressor_ s) frame config) frames), s').
Proof.
  intros [Hperm _].
  destruct (batch_encode_jpeg_run team sched frames config s) as (s' & Hrun & _).
  exists s'. rewrite Hrun. f_equal. f_equal.
  apply list_eq. intros j.
  rewrite store_results_lookup by apply length_replicate.
  rewrite list_lookup_fmap.
  destruct (frames !! j) as [frame|] eqn:Hj.
  - rewrite bool_decide_eq_true_2; [reflexivity|].
    rewrite Hperm. apply elem_of_seq. apply lookup_lt_Some in Hj. lia.
  - destruct (bool_decide (j ∈ sched.*2)); [reflexivity|].
    apply lookup_ge_None_2. rewrite length_replicate. apply lookup_ge_None_1. exact Hj.
Qed.

End EncodeBatchRun.

Section ResourceRule.
Context `{P : Primitives}.

Lemma compress_calls_app (l1 l2 : list tj_event) :
  compress_calls (l1 ++ l2) = compress_calls l1 ++ compress_calls l2.
Proof. apply omap_app. Qed.

Lemma compress_calls_member (t : nat) (h : tjhandle) (l : list tj_event) :
  Forall (fun e => exists m pf a b c, e = TjCompress t h m pf a b c) l ->
  Forall (fun th => th = (t, h)) (compress_calls l).
Proof.
  induction 1 as [|e l (m & pf & a & b & c & ->) _ IH]; [constructor|].
  cbn. constructor; [reflexivity | exact IH].
Qed.

(** In every run of [batch_encode_jpeg], whatever the team and the
    schedule, each codec call goes through the member [jpeg_compressor_];
    the handles the threads acquire at the head of the region are not used
    for any call. *)
Lemma batch_encode_log_member (h next : tjhandle) (team : nat) (sched : schedule)
    (frames : list Mat) (config : JPEGConfig) :
  Forall (fun th => th.2 = h)
         (compress_calls (batch_encode_log h next team sched frames config)).
Proof.
  unfold batch_encode_log. rewrite !compress_calls_app.
  rewrite !Forall_app. split; [|split].
  - generalize (team_locals (seq 0 team) next). intros l.
    induction l; [constructor | exact IHl].
  - unfold loop_log. induction sched as [|[t i] sched IH]; [constructor|].
    cbn [flat_map fst snd]. rewrite compress_calls_app, Forall_app. split; [|exact IH].
    destruct (frames !! i) as [frame|]; [|constructor].
    eapply Forall_impl; [apply compress_calls_member, encode_log_member|].
    intros ? ->. reflexivity.
  - generalize (team_locals (seq 0 team) next). intros l.
    induction l; [constructor | exact IHl].
Qed.

(** C2 (the code at a failing input).  Two 1-channel frames encoded by a
    team of two threads, one frame each: the threads acquire the handles
    [tj_next s] and [tj_next s + 1], and both codec calls, one from thread 0
    and one from thread 1, go through the member handle of the processor;
    that handle is invoked by two threads. *)
Theorem batch_encode_shares_member_handle (s : State) :
  let frames := [row_frame 1 1 7; row_frame 1 1 9] in
  let sched := [(0, 0); (1, 1)]%nat in
  team_of (num_threads_ s) 2 ->
  valid_schedule 2 2 sched /\
  exists rs s' added,
    batch_encode_jpeg 2 sched frames default_JPEGConfig s = (Ok rs, s') /\
    tj_log s' = tj_log s ++ added /\
    init_calls added = [(0, tj_next s); (1, S (tj_next s))]%nat /\
    compress_calls added = [(0%nat, jpeg_compressor_ s); (1%nat, jpeg_compressor_ s)] /\
    ~ handle_not_shared (tj_log s').
Proof.
  intros frames sched _. split.
  { split; [reflexivity | repeat constructor]. }
  destruct (batch_encode_jpeg_run 2 sched frames default_JPEGConfig s) as (s' & Hrun & Hlog).
  eexists _, s', _. split; [exact Hrun|]. split; [exact Hlog|].
  assert (Hadded : batch_encode_log (jpeg_compressor_ s) (tj_next s) 2 sched frames
                     default_JPEGConfig =
                   [TjInit 0 (tj_next s); TjInit 1 (S (tj_next s));
                    TjCompress 0 (jpeg_compressor_ s) (row_frame 1 1 7) TJPF_GRAY
                      TJSAMP_420 85 TJFLAG_FASTDCT;
                    TjCompress 1 (jpeg_compressor_ s) (row_frame 1 1 9) TJPF_GRAY
                      TJSAMP_420 85 TJFLAG_FASTDCT;
                    TjDestroy 0 (tj_next s); TjDestroy 1 (S (tj_next s))]).
  { unfold batch_encode_log, loop_log, sched, frames. cbn [flat_map fst snd lookup list_lookup].
    rewrite !encode_log_accepted by (left; reflexivity). reflexivity. }
  rewrite Hadded. split; [reflexivity|]. split; [reflexivity|].
  intros Hshared.
  assert (Hin : forall t, (t = 0 \/ t = 1)%nat ->
                  (t, jpeg_compressor_ s) ∈ compress_calls (tj_log s')).
  { intros t Ht. rewrite Hlog, Hadded, compress_calls_app. apply elem_of_app. right.
    cbn. destruct Ht as [-> | ->]; [left | right; left]. }
  specialize (Hshared 0%nat 1%nat (jpeg_compressor_ s) (Hin _ (or_introl eq_refl))
                (Hin _ (or_intror eq_refl))).
  discriminate Hshared.
Qed.

End ResourceRule.

(** The shared handle on a processor with two threads. *)
Lemma batch_encode_shares_member_handle_witness :
  exists rs s',
    batch_encode_jpeg (P := sample_prims) 2 [(0, 0); (1, 1)]%nat
      [row_frame 1 1 7; row_frame 1 1 9] default_JPEGConfig state0 = (Ok rs, s') /\
    ~ handle_not_shared (tj_log s').
Proof.
  destruct (batch_encode_shares_member_handle (P := sample_prims) state0)
    as (_ & rs & s' & added & Hrun & _ & _ & _ & Hshared).
  { split; simpl; lia. }
  exists rs, s'. split; [exact Hrun | exact Hshared].
Defined.

Section PreprocessBatchOrder.
Context `{P : Primitives}.

Lemma preprocess_in_order_cons (frames : list Mat) (config : PreprocessConfig)
    (i : nat) (order : list nat) :
  preprocess_in_order frames config (i :: order) =
  match frames !! i with
  | Some frame =>
      match preprocessed frame config, preprocess_in_order frames config order with
      | Some r, Some rs => Some (r :: rs)
      | _, _ => None
      end
  | None => preprocess_in_order frames config order
  end.
Proof. reflexivity. Qed.

(** Running the iterations in another order permutes the results. *)
Lemma preprocess_in_order_perm (frames : list Mat) (config : PreprocessConfig)
    (order1 order2 : list nat) :
  order1 ≡ₚ order2 ->
  forall rs1, preprocess_in_order frames config order1 = Some rs1 ->
  exists rs2, preprocess_in_order frames config order2 = Some rs2 /\ rs1 ≡ₚ rs2.
Proof.
  induction 1 as [|i o1 o2 Hperm IH|i j o|o1 o2 o3 H12 IH12 H23 IH23]; intros rs1.
  - intros [= <-]. exists []. auto.
  - rewrite !preprocess_in_order_cons.
    destruct (frames !! i) as [frame|]; [|apply IH].
    destruct (preprocessed frame config) as [r|]; [|discriminate].
    destruct (preprocess_in_order frames config o1) as [rs|]; [|discriminate].
    intros [= <-]. destruct (IH rs eq_refl) as (rs2 & -> & Hp).
    exists (r :: rs2). split; [reflexivity | constructor; exact Hp].
  - rewrite !preprocess_in_order_cons.
    destruct (frames !! i) as [fi|], (frames !! j) as [fj|];
      try destruct (preprocessed fi config) as [ri|];
      try destruct (preprocessed fj config) as [rj|];
      destruct (preprocess_in_order frames config o) as [rs|];
      try discriminate; intros [= <-]; eexists; split; try reflexivity.
    apply Permutation_swap.
  - intros H1. destruct (IH12 _ H1) as (rs2 & H2 & Hp12).
    destruct (IH23 _ H2) as (rs3 & H3 & Hp23).
    exists rs3. split; [exact H3 | etransitivity; eassumption].
Qed.

Lemma preprocess_in_order_length (frames : list Mat) (config : PreprocessConfig)
    (order : list nat) (rs : list ProcessedFrame) :
  Forall (fun i => (i < length frames)%nat) order ->
  preprocess_in_order frames config order = Some rs ->
  length rs = length order.
Proof.
  intros Hall. revert rs. induction Hall as [|i order Hi _ IH]; intros rs.
  - intros [= <-]. reflexivity.
  - rewrite preprocess_in_order_cons.
    destruct (lookup_lt_is_Some_2 frames i Hi) as [frame ->].
    destruct (preprocessed frame config) as [r|]; [|discriminate].
    destruct (preprocess_in_order frames config order) as [rs'|]; [|discriminate].
    intros [= <-]. simpl. rewrite (IH rs' eq_refl). reflexivity.
Qed.

(** When no frame of the batch has undefined behaviour, [batch_preprocess]
    returns, under every schedule that runs each iteration once, exactly
    one result per frame: the results of the frames taken in isolation, in
    the order of the schedule. *)
Lemma batch_preprocess_permutation (team : nat) (sched : schedule) (frames : list Mat)
    (config : PreprocessConfig) (s : State) (rs0 : list ProcessedFrame) :
  valid_schedule team (length frames) sched ->
  preprocess_in_order frames config (seq 0 (length frames)) = Some rs0 ->
  exists rs s', batch_preprocess sched frames config s = (Ok rs, s') /\
    rs ≡ₚ rs0 /\ length rs = length frames.
Proof.
  intros [Hperm _] H0.
  destruct (preprocess_in_order_perm frames config _ _ (symmetry Hperm) _ H0)
    as (rs & Hrs & Hp).
  exists rs, (count_results rs s). split.
  - unfold batch_preprocess.
    apply (batch_preprocess_loop_defined frames config sched [] rs s Hrs).
  - split; [symmetry; exact Hp|].
    rewrite <- Hp.
    rewrite (preprocess_in_order_length frames config (seq 0 (length frames)) rs0).
    + apply length_seq.
    + apply Forall_forall. intros i Hi%elem_of_seq. lia.
    + exact H0.
Qed.

End PreprocessBatchOrder.

(** ** Thread pool *)

Section PoolFacts.

Lemma pool_eta (p : Pool) :
  {| workers_ := workers_ p; tasks_ := tasks_ p; stop_ := stop_ p; ran := ran p;
     next_promise := next_promise p |} = p.
Proof. destruct p. reflexivity. Qed.

(** Tasks leave the queue from its front and only by being run; a worker
    that has returned saw the queue empty. *)
Lemma queue_invariant (p p' : Pool) :
  rtc step p p' ->
  (exists subs, ran p' ++ tasks_ p' = ran p ++ tasks_ p ++ subs) /\
  (forall i, workers_ p !! i = Some Running -> workers_ p' !! i <> Some Running ->
     exists later, ran p' = ran p ++ tasks_ p ++ later).
Proof.
  revert p'. apply rtc_ind_r.
  { split; [exists []; rewrite app_nil_r; reflexivity|]. intros i H1 H2. contradiction. }
  intros s s' Hrtc Hstep [IHq IHw].
  destruct IHq as [subs Hq].
  inversion Hstep as [p0 frames config|p0 frames config|p0|p0 i t rest Hw Ht
                      |p0 i Hw Hstop Ht|p0 i Hstop Hw]; subst; simpl.
  - split; [|exact IHw].
    eexists (subs ++ [_]). rewrite !app_assoc. f_equal.
    rewrite <- !app_assoc. exact Hq.
  - split; [|exact IHw].
    eexists (subs ++ [_]). rewrite !app_assoc. f_equal.
    rewrite <- !app_assoc. exact Hq.
  - split; [exists subs; exact Hq | exact IHw].
  - rewrite Ht in Hq. split.
    + exists subs. rewrite <- app_assoc. exact Hq.
    + intros j H1 H2. destruct (IHw j H1 H2) as [later ->].
      exists (later ++ [t]). rewrite !app_assoc. reflexivity.
  - split; [exists subs; exact Hq|].
    intros j H1 H2. destruct (decide (j = i)) as [->|Hne].
    + exists subs. rewrite Ht, app_nil_r in Hq. exact Hq.
    + rewrite list_lookup_insert_ne in H2 by congruence. exact (IHw j H1 H2).
  - split; [exists subs; exact Hq|].
    intros j H1 H2. destruct (decide (j = i)) as [->|Hne].
    + apply (IHw i H1). rewrite Hw. discriminate.
    + rewrite list_lookup_insert_ne in H2 by congruence. exact (IHw j H1 H2).
Qed.

(** Once every worker is joined, only submissions change the pool: the
    flag stays set, the workers stay joined and no task is run any more. *)
Lemma stopped_stays (p p' : Pool) :
  stopped p -> rtc step p p' -> stopped p' /\ ran p' = ran p.
Proof.
  intros Hst. revert p'. apply rtc_ind_r; [auto|].
  intros s s' Hrtc Hstep [[Hstop Hall] Hran].
  assert (Hno : forall i w, workers_ s !! i = Some w -> w = Joined).
  { intros i w Hi. eapply (proj1 (Forall_lookup _ _) Hall); exact Hi. }
  inversion Hstep as [p0 frames config|p0 frames config|p0|p0 i t rest Hw Ht
                      |p0 i Hw Hstop' Ht|p0 i Hstop' Hw]; subst; simpl;
    try (split; [split|]; (assumption || reflexivity));
    try (apply Hno in Hw; discriminate).
Qed.

(** A running worker drains the queue in order. *)
Lemma drain_queue (p : Pool) (i : nat) :
  workers_ p !! i = Some Running ->
  rtc step p {| workers_ := workers_ p; tasks_ := []; stop_ := stop_ p;
                ran := ran p ++ tasks_ p; next_promise := next_promise p |}.
Proof.
  destruct p as [ws ts st rn np]. simpl. revert rn.
  induction ts as [|t ts IH]; intros rn Hw.
  - rewrite app_nil_r. apply rtc_refl.
  - eapply rtc_l.
    + apply (step_run {| workers_ := ws; tasks_ := t :: ts; stop_ := st; ran := rn;
                         next_promise := np |} i t ts Hw). reflexivity.
    + simpl. replace (rn ++ t :: ts) with ((rn ++ [t]) ++ ts)
        by (rewrite <- app_assoc; reflexivity).
      apply IH. exact Hw.
Qed.

(** With the flag set and nothing left for them to run, the workers return
    and are joined, one after the other. *)
Lemma retire_workers (k : nat) (ws : list worker) (ts : list task) (rn : list task)
    (np : nat) :
  ts = [] \/ Forall (fun w => w <> Running) ws ->
  rtc step {| workers_ := ws; tasks_ := ts; stop_ := true; ran := rn; next_promise := np |}
           {| workers_ := replicate (k `min` length ws) Joined ++ drop k ws;
              tasks_ := ts; stop_ := true; ran := rn; next_promise := np |}.
Proof.
  intros Hidle. induction k as [|k IH].
  - simpl. rewrite drop_0. apply rtc_refl.
  - destruct (decide (k < length ws)%nat) as [Hlt|Hge].
    2:{ rewrite !Nat.min_r in * by lia. rewrite !drop_ge in * by lia. exact IH. }
    etransitivity; [exact IH|].
    rewrite Nat.min_l by lia. rewrite (Nat.min_l (S k)) by lia.
    destruct (lookup_lt_is_Some_2 ws k Hlt) as [w Hw].
    rewrite (drop_S ws w k Hw).
    set (pk := {| workers_ := replicate k Joined ++ w :: drop (S k) ws; tasks_ := ts;
                  stop_ := true; ran := rn; next_promise := np |}).
    assert (Hk : forall w0 w', <[k := w']> (replicate k Joined ++ w0 :: drop (S k) ws) =
                               replicate k Joined ++ w' :: drop (S k) ws).
    { intros w0 w'. rewrite insert_app_r_alt by (rewrite length_replicate; lia).
      rewrite length_replicate, Nat.sub_diag. reflexivity. }
    assert (Hlk : forall w', (replicate k Joined ++ w' :: drop (S k) ws) !! k = Some w').
    { intros w'. rewrite lookup_app_r by (rewrite length_replicate; lia).
      rewrite length_replicate, Nat.sub_diag. reflexivity. }
    assert (Hend : replicate (S k) Joined ++ drop (S k) ws =
                   replicate k Joined ++ Joined :: drop (S k) ws).
    { rewrite replicate_S_end, <- app_assoc. reflexivity. }
    rewrite Hend.
    assert (Hjoin : rtc step {| workers_ := replicate k Joined ++ Exited :: drop (S k) ws;
                               tasks_ := ts; stop_ := true; ran := rn; next_promise := np |}
                             {| workers_ := replicate k Joined ++ Joined :: drop (S k) ws;
                                tasks_ := ts; stop_ := true; ran := rn; next_promise := np |}).
    { apply rtc_once.
      pose proof (step_join {| workers_ := replicate k Joined ++ Exited :: drop (S k) ws;
                               tasks_ := ts; stop_ := true; ran := rn; next_promise := np |}
                            k eq_refl (Hlk Exited)) as Hs.
      unfold set_worker in Hs. simpl in Hs. rewrite Hk in Hs. exact Hs. }
    destruct w.
    + destruct Hidle as [-> | Hno].
      * eapply rtc_l; [|exact Hjoin].
        pose proof (step_return pk k (Hlk Running) eq_refl eq_refl) as Hs.
        unfold set_worker, pk in Hs. simpl in Hs. rewrite Hk in Hs. exact Hs.
      * exfalso. eapply (proj1 (Forall_lookup _ _) Hno); [exact Hw | reflexivity].
    + exact Hjoin.
    + apply rtc_refl.
Qed.

(** [shutdown] is a run of the pool: it ends with every worker joined. *)
Lemma shutdown_run (p : Pool) : rtc step p (shutdown p) /\ stopped (shutdown p).
Proof.
  assert (Hall : forall ws : list worker,
            replicate (length ws `min` length ws) Joined ++ drop (length ws) ws =
            map (fun _ => Joined) ws).
  { intros ws. rewrite Nat.min_id, drop_all, app_nil_r.
    induction ws; simpl; [reflexivity | f_equal; assumption]. }
  split.
  - eapply rtc_l; [apply step_set_stop|].
    unfold shutdown. destruct (existsb is_running (workers_ p)) eqn:Hex.
    + apply existsb_exists in Hex. destruct Hex as (w & Hin & Hw).
      destruct w; try discriminate.
      apply list_elem_of_In, list_elem_of_lookup in Hin. destruct Hin as [i Hi].
      etransitivity; [apply (drain_queue (set_stop p) i Hi)|]. simpl.
      rewrite <- Hall. apply retire_workers. left. reflexivity.
    + unfold set_stop. rewrite <- Hall. apply retire_workers. right.
      apply Forall_forall. intros w Hin%list_elem_of_In ->.
      assert (existsb is_running (workers_ p) = true)
        by (apply existsb_exists; exists Running; auto).
      congruence.
  - unfold shutdown, stopped. destruct (existsb is_running (workers_ p)); simpl;
      (split; [reflexivity|]); apply Forall_forall; intros w Hw;
      apply list_elem_of_fmap in Hw; destruct Hw as (? & -> & _); reflexivity.
Qed.

(** A second [shutdown] changes nothing. *)
Lemma shutdown_stopped (p : Pool) : stopped p -> shutdown p = p.
Proof.
  intros [Hstop Hall]. unfold shutdown.
  assert (Hmap : map (fun _ => Joined) (workers_ p) = workers_ p).
  { induction Hall as [|w ws -> _ IH]; simpl; [reflexivity | f_equal; exact IH]. }
  assert (Hex : existsb is_running (workers_ p) = false).
  { apply not_true_is_false. intros (w & Hin & Hw)%existsb_exists.
    apply list_elem_of_In in Hin.
    rewrite (proj1 (Forall_forall _ _) Hall w Hin) in Hw. discriminate. }
  rewrite Hex, Hmap, <- Hstop. apply pool_eta.
Qed.

End PoolFacts.

(** C9 as stated fails: with the stop flag set, [submit_batch] still queues
    its task, and a worker that has not returned yet runs it. *)
Lemma submit_after_stop_is_enqueued :
  let p := set_stop (FrameProcessorPool_new 1) in
  let t := PreprocessTask [] default_PreprocessConfig 0 in
  stop_ p = true /\
  tasks_ (submit_batch [] default_PreprocessConfig p).2 = [t] /\
  exists p', rtc step (submit_batch [] default_PreprocessConfig p).2 p' /\ ran p' = [t].
Proof.
  intros p t. split; [reflexivity|]. split; [reflexivity|].
  eexists. split.
  - apply rtc_once. apply (step_run _ 0 t []); reflexivity.
  - reflexivity.
Qed.

(** C9 (amended).  Submission is accepted in every state of the pool, stop
    flag set or not: the task is appended to the queue and a fresh future
    returned.  When a worker is still running, every run of the pool that
    ends with all workers joined has run the tasks that were queued, in
    queue order.  [shutdown] is such a run.  On a pool whose workers are
    all joined a further [shutdown] changes nothing, and no run of the pool
    executes a task any more. *)
Theorem pool_shutdown_protocol (p : Pool) :
  (forall frames config,
     tasks_ (submit_batch frames config p).2 =
       tasks_ p ++ [PreprocessTask frames config (next_promise p)] /\
     stop_ (submit_batch frames config p).2 = stop_ p) /\
  (forall frames config,
     tasks_ (submit_encode_batch frames config p).2 =
       tasks_ p ++ [EncodeTask frames config (next_promise p)] /\
     stop_ (submit_encode_batch frames config p).2 = stop_ p) /\
  (Running ∈ workers_ p ->
   forall p', rtc step p p' -> stopped p' ->
     exists later, ran p' = ran p ++ tasks_ p ++ later) /\
  (rtc step p (shutdown p) /\ stopped (shutdown p)) /\
  shutdown (shutdown p) = shutdown p /\
  (stopped p -> shutdown p = p /\
     forall p', rtc step p p' -> stopped p' /\ ran p' = ran p).
Proof.
  split; [intros; split; reflexivity|].
  split; [intros; split; reflexivity|].
  split; [|split; [apply shutdown_run|split]].
  - intros Hin p' Hsteps [_ Hall].
    apply list_elem_of_lookup in Hin. destruct Hin as [i Hi].
    apply (proj2 (queue_invariant p p' Hsteps) i Hi).
    intros Hrun. pose proof (proj1 (Forall_lookup _ _) Hall i _ Hrun). discriminate.
  - apply shutdown_stopped, shutdown_run.
  - intros Hst. split; [apply shutdown_stopped; exact Hst|].
    intros p'. apply stopped_stays. exact Hst.
Qed.

(** A pool of two workers with one queued task, shut down. *)
Lemma pool_shutdown_protocol_witness :
  let t := PreprocessTask [] default_PreprocessConfig 0 in
  let p := (submit_batch [] default_PreprocessConfig (FrameProcessorPool_new 2)).2 in
  exists later, ran (shutdown p) = [t] ++ later.
Proof.
  intros t p.
  destruct (pool_shutdown_protocol p) as (_ & _ & Hdrain & [Hrun Hstopped] & _).
  apply (Hdrain (list_elem_of_here Running [Running]) (shutdown p) Hrun Hstopped).
Defined.

(** ** Binary32 arithmetic at the identity parameters *)

Section Binary32.

Lemma f32_sub_zero (x : spec_float) : f32_sub x f32_zero = x.
Proof. destruct x as [[]|[]| |s m e]; reflexivity. Qed.

(** What validity says about a finite binary32 value. *)
Lemma f32_bounded (m : positive) (e : Z) :
  bounded prec32 emax32 m e = true ->
  Z.max (Z.pos (digits2_pos m) + e - 24) (-149) = e /\ e <= 104.
Proof.
  unfold bounded, canonical_mantissa, fexp, emin, prec32, emax32.
  intros [Hc He]%andb_true_iff. apply Z.eqb_eq in Hc. apply Z.leb_le in He.
  split; [exact Hc | exact He].
Qed.

Lemma div_eucl_exact (a b q : Z) :
  0 < b -> a = q * b -> Z.div_eucl a b = (q, 0).
Proof.
  intros Hb ->.
  pose proof (Z.div_mul q b ltac:(lia)) as Hq.
  pose proof (Z.mod_mul q b ltac:(lia)) as Hr.
  unfold Z.div, Z.modulo in Hq, Hr.
  destruct (Z.div_eucl (q * b) b) as [q' r']. congruence.
Qed.

(** Rounding a mantissa that already fits is the identity. *)
Lemma round_exact (s : bool) (m : positive) (e : Z) :
  bounded prec32 emax32 m e = true ->
  binary_round_aux prec32 emax32 s (Z.pos m) e loc_Exact = S754_finite s m e.
Proof.
  intros Hb. destruct (f32_bounded m e Hb) as [Hc He].
  unfold binary_round_aux, shr_fexp. cbn [Zdigits2 shr_record_of_loc].
  assert (H0 : fexp prec32 emax32 (Z.pos (digits2_pos m) + e) - e = 0).
  { unfold fexp, emin, prec32, emax32. lia. }
  rewrite H0. cbn [shr shr_m loc_of_shr_record round_nearest_even Zdigits2 shr_record_of_loc].
  rewrite H0. cbn [shr shr_m].
  replace (e <=? emax32 - prec32) with true; [reflexivity|].
  symmetry. apply Z.leb_le. unfold emax32, prec32. lia.
Qed.

(** Rounding twice a full mantissa, one exponent lower, shifts it back. *)
Lemma round_exact_shifted (s : bool) (m : positive) (e : Z) :
  bounded prec32 emax32 m e = true ->
  Z.pos (digits2_pos m) = 24 ->
  binary_round_aux prec32 emax32 s (Z.pos m~0) (e - 1) loc_Exact = S754_finite s m e.
Proof.
  intros Hb Hd. destruct (f32_bounded m e Hb) as [Hc He].
  unfold binary_round_aux, shr_fexp. cbn [Zdigits2 shr_record_of_loc digits2_pos].
  rewrite Pos2Z.inj_succ, Hd.
  assert (H1 : fexp prec32 emax32 (Z.succ 24 + (e - 1)) - (e - 1) = 1).
  { unfold fexp, emin, prec32, emax32. lia. }
  rewrite H1.
  cbn [shr SpecFloat.iter_pos shr_1 orb shr_m shr_r shr_s loc_of_shr_record round_nearest_even
       Zdigits2 shr_record_of_loc].
  replace (e - 1 + 1) with e by lia. rewrite Hd.
  assert (H0 : fexp prec32 emax32 (24 + e) - e = 0).
  { unfold fexp, emin, prec32, emax32. lia. }
  rewrite H0. cbn [shr shr_m].
  replace (e <=? emax32 - prec32) with true; [reflexivity|].
  symmetry. apply Z.leb_le. unfold emax32, prec32. lia.
Qed.

Lemma div_core_one (m : positive) (e : Z) :
  bounded prec32 emax32 m e = true ->
  SFdiv_core_binary prec32 emax32 (Z.pos m) e 8388608 (-23) =
    if (Z.pos (digits2_pos m) =? 24) && (-149 <? e)
    then (Z.pos m~0, e - 1, loc_Exact)
    else (Z.pos m, e, loc_Exact).
Proof.
  intros Hb. destruct (f32_bounded m e Hb) as [Hc He].
  unfold SFdiv_core_binary.
  change (Zdigits2 8388608) with 24. cbn [Zdigits2].
  pose proof (Pos2Z.is_pos (digits2_pos m)) as Hpos.
  destruct ((Z.pos (digits2_pos m) =? 24) && (-149 <? e)) eqn:Hcase.
  - apply andb_true_iff in Hcase. destruct Hcase as [Hd%Z.eqb_eq Hlt%Z.ltb_lt].
    assert (He' : Z.min (fexp prec32 emax32 (Z.pos (digits2_pos m) + e - (24 + -23)))
                        (e - -23) = e - 1).
    { unfold fexp, emin, prec32, emax32. lia. }
    rewrite He'. replace (e - -23 - (e - 1)) with 24 by lia.
    rewrite (div_eucl_exact (Z.shiftl (Z.pos m) 24) 8388608 (Z.pos m~0)).
    + reflexivity.
    + lia.
    + rewrite Z.shiftl_mul_pow2 by lia. rewrite Pos2Z.inj_xO.
      change (2 ^ 24) with (2 * 8388608). lia.
  - assert (He' : Z.min (fexp prec32 emax32 (Z.pos (digits2_pos m) + e - (24 + -23)))
                        (e - -23) = e).
    { apply andb_false_iff in Hcase. unfold fexp, emin, prec32, emax32.
      destruct Hcase as [Hd%Z.eqb_neq | Hlt%Z.ltb_ge]; lia. }
    rewrite He'. replace (e - -23 - e) with 23 by lia.
    rewrite (div_eucl_exact (Z.shiftl (Z.pos m) 23) 8388608 (Z.pos m)).
    + reflexivity.
    + lia.
    + rewrite Z.shiftl_mul_pow2 by lia. reflexivity.
Qed.

(** Dividing by [1.0f] is exact on every binary32 value. *)
Lemma f32_div_one (x : spec_float) : f32_valid x = true -> f32_div x f32_one = x.
Proof.
  destruct x as [s|s| |s m e]; intros Hv.
  - unfold f32_div, f32_one. simpl. rewrite xorb_false_r. reflexivity.
  - unfold f32_div, f32_one. simpl. rewrite xorb_false_r. reflexivity.
  - reflexivity.
  - unfold f32_valid in Hv. cbn [valid_binary] in Hv.
    unfold f32_div, f32_one. cbn [SFdiv]. rewrite (div_core_one m e Hv).
    rewrite xorb_false_r.
    destruct ((Z.pos (digits2_pos m) =? 24) && (-149 <? e)) eqn:Hcase.
    + apply andb_true_iff in Hcase. destruct Hcase as [Hd%Z.eqb_eq _].
      apply round_exact_shifted; assumption.
    + apply round_exact; assumption.
Qed.

(** The arithmetic of the normalization at mean 0 and std 1 returns its
    operand, bit for bit. *)
Lemma identity_arith (x : spec_float) :
  f32_valid x = true -> f32_div (f32_sub x f32_zero) f32_one = x.
Proof. intros Hv. rewrite f32_sub_zero. apply f32_div_one. exact Hv. Qed.

End Binary32.

Section NormalizeIdentity.
Context `{P : Primitives}.

Lemma imap_id_on {A} (f : nat -> A -> A) (l : list A) :
  (forall i x, l !! i = Some x -> f i x = x) -> imap f l = l.
Proof.
  revert f. induction l as [|a l IH]; intros f Hf; [reflexivity|].
  cbn [imap]. f_equal.
  - apply (Hf 0%nat). reflexivity.
  - apply IH. intros i x Hi. apply (Hf (S i)). exact Hi.
Qed.

Lemma normalize_pixel_identity (p : list spec_float) :
  Forall (fun x => f32_valid x = true) p ->
  normalize_pixel (f32_zero, f32_zero, f32_zero) (f32_one, f32_one, f32_one) p = p.
Proof.
  intros Hv. unfold normalize_pixel. apply imap_id_on. intros i x Hi.
  assert (Hx : f32_valid x = true)
    by (exact (proj1 (Forall_lookup _ _) Hv i x Hi)).
  unfold channel_arith. destruct (i <? 3)%nat; [|reflexivity].
  destruct i as [|[|i]]; apply identity_arith; exact Hx.
Qed.

(** The skipping normalize step against the normalization as the
    specification words it. *)
Lemma normalize_step_identity (config : PreprocessConfig) (processed : Mat) :
  normalize config = true ->
  mean config = (f32_zero, f32_zero, f32_zero) ->
  std config = (f32_one, f32_one, f32_one) ->
  Forall (fun x => f32_valid x = true) (float_samples (convertTo_32F processed)) ->
  normalize_step config processed =
    Ok (normalize_always (mean config) (std config) processed).
Proof.
  intros Hn Hmean Hstd Hvalid.
  unfold normalize_step, mean_std_given. rewrite Hn, Hmean, Hstd. cbn [at3].
  change (f32_neq f32_zero f32_zero) with false.
  change (f32_neq f32_one f32_one) with false. cbn [orb].
  f_equal. unfold normalize_always.
  unfold float_samples in Hvalid.
  destruct (convertTo_32F processed) as [r c n d] eqn:Hconv. cbn [rows cols cn mdata] in *.
  assert (Hd : exists px, d = Data32F px).
  { unfold convertTo_32F in Hconv. destruct (mdata processed); inversion Hconv; eauto. }
  destruct Hd as [px ->]. f_equal. f_equal. clear Hconv.
  induction px as [|p px IH]; [reflexivity|].
  cbn [concat] in Hvalid. apply Forall_app in Hvalid. destruct Hvalid as [Hp Hpx].
  cbn [map]. rewrite (normalize_pixel_identity p Hp). f_equal. apply IH. exact Hpx.
Qed.

End NormalizeIdentity.

Section NormalizeFrame.
Context `{P : Primitives}.

(** The loop over the first [k] planes never leaves the vector when it
    holds at least [k] of them. *)
Lemma normalize_channels_run (mean std : spec_float * spec_float * spec_float)
    (k : nat) (channels : list Mat) :
  (k <= length channels)%nat ->
  normalize_channels mean std k channels =
    Ok (imap (fun i c => if (i <? k)%nat then sub_div c (at3 mean i) (at3 std i) else c)
             channels).
Proof.
  unfold normalize_channels. induction k as [|k IH]; intros Hk.
  - simpl. f_equal. symmetry. apply imap_id_on. reflexivity.
  - rewrite seq_S, foldl_app, IH by lia. cbn [foldl mbind outcome_bind].
    unfold normalize_channel. rewrite list_lookup_imap.
    destruct (lookup_lt_is_Some_2 channels k ltac:(lia)) as [c Hc].
    change (0 + k)%nat with k. rewrite Hc.
    cbn [fmap option_fmap option_map]. rewrite Nat.ltb_irrefl. f_equal.
    apply list_eq. intros j. rewrite list_lookup_imap.
    destruct (decide (j = k)) as [->|Hne].
    + rewrite list_lookup_insert_eq by (rewrite length_imap; lia).
      rewrite Hc. cbn [fmap option_fmap option_map].
      rewrite (proj2 (Nat.ltb_lt k (S k))) by lia. reflexivity.
    + rewrite list_lookup_insert_ne by congruence. rewrite list_lookup_imap.
      destruct (channels !! j) as [cj|]; [|reflexivity]. cbn [fmap option_fmap option_map].
      f_equal.
      destruct (j <? k)%nat eqn:H1, (j <? S k)%nat eqn:H2; try reflexivity;
        [apply Nat.ltb_lt in H1; apply Nat.ltb_ge in H2 |
         apply Nat.ltb_ge in H1; apply Nat.ltb_lt in H2]; lia.
Qed.

(** The loop over [k] planes leaves a vector that holds fewer than [k]. *)
Lemma normalize_channels_short (mean std : spec_float * spec_float * spec_float)
    (k : nat) (channels : list Mat) :
  (length channels < k)%nat ->
  normalize_channels mean std k channels = Undefined.
Proof.
  intros Hk.
  assert (Hstuck : forall l, foldl (fun acc i => cs ← acc; normalize_channel mean std cs i)
                               Undefined l = Undefined).
  { induction l as [|i l IH]; [reflexivity | exact IH]. }
  pose proof (normalize_channels_run mean std (length channels) channels (le_n _)) as Hrun.
  unfold normalize_channels in *.
  replace k with (length channels + S (k - S (length channels)))%nat by lia.
  rewrite seq_app, foldl_app, Hrun. cbn [seq foldl mbind outcome_bind].
  unfold normalize_channel at 2. rewrite list_lookup_imap.
  rewrite (lookup_ge_None_2 channels (0 + length channels)) by (simpl; lia).
  apply Hstuck.
Qed.

(** With a mean or std given, the normalize step of [preprocess_internal]
    on a matrix that splits into fewer than three planes (one or two
    channels, or empty) indexes past the end of [channels]. *)
Lemma normalize_step_short_undefined (config : PreprocessConfig) (m : Mat) :
  normalize config = true -> mean_std_given config = true ->
  (length (split (convertTo_32F m)) < 3)%nat ->
  normalize_step config m = Undefined.
Proof.
  intros Hn Hg Hlen. unfold normalize_step. rewrite Hn, Hg.
  rewrite normalize_channels_short by exact Hlen. reflexivity.
Qed.

Lemma interleave_map {A B} (f g : A -> list B) (l : list A) :
  interleave (map f l) (map g l) = map (fun x => f x ++ g x) l.
Proof. induction l as [|x l IH]; [reflexivity|]. cbn. f_equal. exact IH. Qed.

Lemma flat_map_ext_in {A B} (f g : A -> list B) (l : list A) :
  (forall x, x ∈ l -> f x = g x) -> flat_map f l = flat_map g l.
Proof.
  induction l as [|x l IH]; intros Hfg; [reflexivity|]. cbn.
  rewrite (Hfg x) by left. f_equal. apply IH. intros y Hy. apply Hfg. right. exact Hy.
Qed.

Lemma flat_map_seq_shift {B} (f : nat -> list B) (a n : nat) :
  flat_map f (seq (S a) n) = flat_map (fun i => f (S i)) (seq a n).
Proof.
  revert a. induction n as [|n IH]; intros a; [reflexivity|].
  cbn [seq flat_map]. f_equal. apply IH.
Qed.

(** A pixel is the concatenation of its channels. *)
Lemma imap_flat_map {A} (g : nat -> A -> A) (p : list A) :
  imap g p = flat_map (fun i => option_list (g i <$> p !! i)) (seq 0 (length p)).
Proof.
  revert g. induction p as [|a p IH]; intros g; [reflexivity|].
  rewrite imap_cons. cbn [length seq flat_map].
  rewrite flat_map_seq_shift, IH. reflexivity.
Qed.

(** [cv::merge] of single-channel float planes of one size: the pixels are
    the concatenations of the samples of the planes. *)
Lemma merge_planes (r c : Z) (fx : list (list spec_float))
    (h : nat -> list spec_float -> list spec_float) (b a : nat) :
  foldl (fun acc m => a0 ← acc; merge2 a0 m)
        (Ok (float_mat r c (Z.of_nat a) (map (fun p => flat_map (fun i => h i p) (seq 0 a)) fx)))
        (map (fun i => float_mat r c 1 (map (h i) fx)) (seq a b)) =
  Ok (float_mat r c (Z.of_nat (a + b))
        (map (fun p => flat_map (fun i => h i p) (seq 0 (a + b))) fx)).
Proof.
  revert a. induction b as [|b IH]; intros a.
  - rewrite Nat.add_0_r. reflexivity.
  - cbn [seq map foldl]. cbn [mbind outcome_bind].
    unfold merge2 at 2. cbn [float_mat rows cols cn mdata].
    rewrite !Z.eqb_refl. cbn [andb negb].
    rewrite interleave_map.
    replace (Z.of_nat a + 1) with (Z.of_nat (S a)) by lia.
    replace (a + S b)%nat with (S a + b)%nat by lia.
    rewrite <- IH. f_equal. f_equal. unfold float_mat. f_equal. f_equal.
    apply map_ext. intros p. rewrite seq_S, flat_map_app. cbn [flat_map].
    rewrite app_nil_r. reflexivity.
Qed.

Lemma convertTo_32F_float (frame : Mat) :
  mat_wf frame ->
  exists fx, convertTo_32F frame = float_mat (rows frame) (cols frame) (cn frame) fx /\
    Forall (fun p => length p = Z.to_nat (cn frame)) fx.
Proof.
  intros (_ & _ & Hcn & _ & Hw). unfold convertTo_32F, pixel_widths in *.
  destruct (mdata frame) as [px|px]; eexists; (split; [reflexivity|]);
    apply Forall_fmap in Hw; apply Forall_fmap;
    (eapply Forall_impl; [exact Hw|]); intros p Hp; cbn in *;
    rewrite length_map; lia.
Qed.

(** On a non-empty well-formed frame, [normalize_frame] computes the
    normalization with the arithmetic always performed. *)
Lemma normalize_frame_always (frame : Mat) (mean std : spec_float * spec_float * spec_float) :
  mat_wf frame -> mat_empty frame = false ->
  normalize_frame frame mean std = Ok (normalize_always mean std frame).
Proof.
  intros Hwf Hne. destruct (convertTo_32F_float frame Hwf) as (fx & Hconv & Hlen).
  destruct Hwf as (_ & _ & Hcn & _ & _).
  unfold normalize_frame, normalize_always. rewrite Hconv. cbn [float_mat rows cols cn mdata].
  set (r := rows frame). set (c := cols frame). set (N := Z.to_nat (cn frame)) in *.
  assert (HN : cn frame = Z.of_nat N) by (subst N; lia).
  assert (Hsplit : split (float_mat r c (cn frame) fx) =
                   map (fun i => float_mat r c 1 (map (fun p => option_list (p !! i)) fx))
                       (seq 0 N)).
  { unfold split. change (mat_empty (float_mat r c (cn frame) fx)) with (mat_empty frame).
    rewrite Hne. reflexivity. }
  fold (float_mat r c (cn frame) fx). rewrite Hsplit.
  set (planes := map _ (seq 0 N)).
  assert (Hplanes : length planes = N) by (subst planes; rewrite length_map, length_seq; reflexivity).
  rewrite Hplanes, normalize_channels_run by lia. cbn [mbind outcome_bind].
  set (k := (3 `min` N)%nat).
  set (h := fun i (p : list spec_float) => option_list (channel_arith mean std k i <$> p !! i)).
  assert (Himap : imap (fun i ch => if (i <? k)%nat then sub_div ch (at3 mean i) (at3 std i)
                                    else ch) planes =
                  map (fun i => float_mat r c 1 (map (h i) fx)) (seq 0 N)).
  { apply list_eq. intros j. rewrite list_lookup_imap. subst planes.
    change (map ?f (seq 0 N)) with (f <$> seq 0 N). rewrite !list_lookup_fmap.
    destruct (seq 0 N !! j) as [i|] eqn:Hj; [|reflexivity].
    apply lookup_seq in Hj. destruct Hj as [-> _]. cbn [fmap option_fmap option_map].
    f_equal. change (0 + j)%nat with j. subst h. unfold channel_arith.
    destruct (j <? k)%nat.
    - unfold sub_div, float_mat. cbn [rows cols cn mdata]. f_equal. f_equal.
      rewrite map_map. apply map_ext. intros p. destruct (p !! j); reflexivity.
    - unfold float_mat. f_equal. f_equal. apply map_ext. intros p.
      destruct (p !! j); reflexivity. }
  rewrite Himap. destruct N as [|N']; [lia|].
  cbn [seq map merge].
  assert (H0 : float_mat r c 1 (map (h 0%nat) fx) =
               float_mat r c (Z.of_nat 1)
                 (map (fun p => flat_map (fun i => h i p) (seq 0 1)) fx)).
  { unfold float_mat. f_equal. f_equal. apply map_ext. intros p. cbn.
    rewrite app_nil_r. reflexivity. }
  rewrite H0, merge_planes. f_equal. unfold float_mat. rewrite HN. f_equal. f_equal.
  apply map_ext_in. intros p Hp%list_elem_of_In.
  unfold normalize_pixel. rewrite imap_flat_map.
  rewrite (proj1 (Forall_forall _ _) Hlen p Hp).
  apply flat_map_ext_in. intros i Hi%elem_of_seq. subst h. cbn beta.
  unfold channel_arith. subst k.
  replace (i <? 3 `min` S N')%nat with (i <? 3)%nat; [reflexivity|].
  destruct (i <? 3)%nat eqn:H3; symmetry;
    [apply Nat.ltb_lt; apply Nat.ltb_lt in H3 | apply Nat.ltb_ge; apply Nat.ltb_ge in H3]; lia.
Qed.

End NormalizeFrame.

Section NormalizeRefinement.
Context `{P : Primitives}.

(** C5.  With mean = [0,0,0] and std = [1,1,1] the normalize step of
    [preprocess_internal], which skips the subtraction and the division,
    returns exactly the matrix of the normalization with the arithmetic
    always performed: the same geometry and, sample for sample, the same
    binary32 values.  On a non-empty frame that matrix is also what
    [normalize_frame], the path of the code without the shortcut, returns. *)
Theorem normalize_identity_exact (config : PreprocessConfig) (processed : Mat) :
  normalize config = true ->
  mean config = (f32_zero, f32_zero, f32_zero) ->
  std config = (f32_one, f32_one, f32_one) ->
  Forall (fun x => f32_valid x = true) (float_samples (convertTo_32F processed)) ->
  normalize_step config processed =
    Ok (normalize_always (mean config) (std config) processed) /\
  (mat_wf processed -> mat_empty processed = false ->
   normalize_step config processed = normalize_frame processed (mean config) (std config)).
Proof.
  intros Hn Hmean Hstd Hvalid.
  pose proof (normalize_step_identity config processed Hn Hmean Hstd Hvalid) as Hstep.
  split; [exact Hstep|].
  intros Hwf Hne. rewrite Hstep. symmetry. apply normalize_frame_always; assumption.
Qed.

End NormalizeRefinement.

(** The default configuration on a two-pixel BGR row. *)
Lemma normalize_identity_exact_witness :
  normalize_step (P := sample_prims) default_PreprocessConfig (row_frame 2 3 10) =
    normalize_frame (P := sample_prims) (row_frame 2 3 10)
      (f32_zero, f32_zero, f32_zero) (f32_one, f32_one, f32_one).
Proof.
  refine (proj2 (normalize_identity_exact (P := sample_prims) default_PreprocessConfig
                   (row_frame 2 3 10) eq_refl eq_refl eq_refl _) _ eq_refl).
  - vm_compute. repeat constructor.
  - unfold mat_wf. vm_compute. repeat split; try discriminate. repeat constructor.
Defined.

(** * Further properties of the processor *)

Section ComposedOperations.
Context `{P : Primitives}.

(** X1.  [preprocess_and_encode] is the encode of the preprocessed matrix;
    when preprocessing throws, the encoder is not reached: the state (codec
    log and statistics) is unchanged and the result carries the message of
    the preprocessing fault, with no geometry and no data. *)
Theorem preprocess_and_encode_composes (frame : Mat) (preproc_config : PreprocessConfig)
    (jpeg_config : JPEGConfig) (s : State) :
  match preprocess_internal frame preproc_config with
  | Ok processed =>
      preprocess_and_encode frame preproc_config jpeg_config s =
        encode_jpeg processed jpeg_config s
  | Throw what =>
      preprocess_and_encode frame preproc_config jpeg_config s =
        (Ok {| data := []; width := None; height := None; channels := None;
               success := false; error_msg := what |}, s)
  | Undefined =>
      preprocess_and_encode frame preproc_config jpeg_config s = (Undefined, s)
  end.
Proof.
  unfold preprocess_and_encode, encode_jpeg.
  destruct (preprocess_internal frame preproc_config) as [processed|what|] eqn:Hpre;
    unfold try_catch, mbind, M_bind, lift; cbn [fst snd]; try reflexivity.
  destruct (encode_jpeg_internal_effect processed jpeg_config s) as (s' & -> & _).
  reflexivity.
Qed.

(** X2.  Every encode returns a result that reports the geometry of its
    input; a failed one has no data and one of three messages: the
    exception of the alpha-dropping conversion, "Unsupported channel
    count", or the codec failure with the codec's error string. *)
Theorem encode_failure_messages (frame : Mat) (config : JPEGConfig) (s : State) :
  exists r s', encode_jpeg frame config s = (Ok r, s') /\
    width r = Some (cols frame) /\ height r = Some (rows frame) /\
    channels r = Some (cn frame) /\
    (success r = false ->
       data r = [] /\
       ((cn frame = 4 /\ cvtColor frame COLOR_BGRA2BGR = inl (error_msg r)) \/
        error_msg r = "Unsupported channel count" \/
        error_msg r = "turbojpeg compression failed: " +:+ tjGetErrorStr)).
Proof.
  unfold encode_jpeg. rewrite encode_jpeg_internal_run. cbv zeta.
  destruct (cn frame =? 4) eqn:H4.
  - apply Z.eqb_eq in H4.
    destruct (cvtColor frame COLOR_BGRA2BGR) as [w|bgr] eqn:Hc.
    { eexists _, _. split; [reflexivity|]. cbn. repeat split. left. auto. }
    destruct ((cn bgr =? 1) || (cn bgr =? 3)).
    2:{ eexists _, _. split; [reflexivity|]. cbn. repeat split. right. left. reflexivity. }
    match goal with |- context [if ?c =? 0 then _ else _] => destruct (c =? 0) end.
    + eexists _, _. split; [reflexivity|]. cbn. repeat split; discriminate.
    + eexists _, _. split; [reflexivity|]. cbn. repeat split. right. right. reflexivity.
  - destruct ((cn frame =? 1) || (cn frame =? 3)).
    2:{ eexists _, _. split; [reflexivity|]. cbn. repeat split. right. left. reflexivity. }
    match goal with |- context [if ?c =? 0 then _ else _] => destruct (c =? 0) end.
    + eexists _, _. split; [reflexivity|]. cbn. repeat split; discriminate.
    + eexists _, _. split; [reflexivity|]. cbn. repeat split. right. right. reflexivity.
Qed.

End ComposedOperations.

Section PreprocessShape.
Context `{P : Primitives}.

Lemma merge_fold_shape (ms : list Mat) (a m' : Mat) :
  foldl (fun acc m => a0 ← acc; merge2 a0 m) (Ok a) ms = Ok m' ->
  rows m' = rows a /\ cols m' = cols a /\ depth m' = depth a.
Proof.
  assert (Hthrow : forall l w, foldl (fun acc m => a0 ← acc; merge2 a0 m) (Throw w) l
                               = Throw w).
  { induction l as [|x l IH]; intros w; [reflexivity | apply IH]. }
  revert a. induction ms as [|m ms IH]; intros a; cbn [foldl].
  - intros [= <-]. auto.
  - cbn [mbind outcome_bind]. unfold merge2 at 2.
    destruct (negb ((rows a =? rows m) && (cols a =? cols m)));
      [rewrite Hthrow; discriminate|].
    unfold depth.
    destruct (mdata a) as [pa|pa] eqn:Ha, (mdata m) as [pb|pb];
      try (rewrite Hthrow; discriminate);
      intros Hm; apply IH in Hm; cbn in Hm; unfold depth in Hm; cbn in Hm;
      exact Hm.
Qed.

(** The normalize step keeps the size of the matrix; when normalization is
    on, its result is a [CV_32F] matrix. *)
Lemma normalize_step_shape (config : PreprocessConfig) (m m' : Mat) :
  normalize_step config m = Ok m' ->
  rows m' = rows m /\ cols m' = cols m /\
  (normalize config = true -> depth m' = CV_32F).
Proof.
  unfold normalize_step.
  assert (Hconv : rows (convertTo_32F m) = rows m /\ cols (convertTo_32F m) = cols m /\
                  depth (convertTo_32F m) = CV_32F).
  { unfold convertTo_32F, depth. cbn. destruct (mdata m); auto. }
  destruct (normalize config); [|intros [= <-]; repeat split; discriminate].
  destruct (mean_std_given config); [|intros [= <-]; tauto].
  destruct Hconv as (Hr & Hc & Hd). set (F := convertTo_32F m) in *.
  destruct (decide (length (split F) < 3)%nat) as [Hshort|Hlong].
  { rewrite normalize_channels_short by exact Hshort. discriminate. }
  rewrite normalize_channels_run by lia. cbn [mbind outcome_bind].
  unfold split in *. destruct (mat_empty F); [cbn in Hlong; lia|].
  destruct (Z.to_nat (cn F)) as [|N]; [cbn in Hlong; lia|].
  cbn [seq map imap merge].
  match goal with |- foldl _ (Ok ?c0) _ = _ -> _ => set (c := c0) end.
  assert (Hc0 : rows c = rows F /\ cols c = cols F /\ depth c = CV_32F).
  { subst c. unfold depth. cbn. destruct (mdata m); cbn; auto. }
  destruct Hc0 as (Hr0 & Hc0 & Hd0).
  intros Hm. apply merge_fold_shape in Hm. destruct Hm as (Hr' & Hc' & Hd').
  repeat split; congruence.
Qed.

(** X3.  Under the documented size contracts of [cv::resize] and
    [cv::cvtColor], a successful [preprocess_for_inference] with positive
    target dimensions reports exactly the target width and height, whatever
    the size of the input frame and whichever later steps are switched on;
    with normalization on, the matrix it copied out is a [CV_32F] matrix. *)
Theorem preprocess_reports_target_size (frame : Mat) (config : PreprocessConfig)
    (s s' : State) (r : ProcessedFrame) :
  resize_contract -> color_contract ->
  0 < target_width config -> 0 < target_height config ->
  preprocess_for_inference frame config s = (Ok r, s') ->
  success r = true ->
  width r = Some (target_width config) /\ height r = Some (target_height config) /\
  exists processed, preprocess_internal frame config = Ok processed /\
    data r = copy_out processed /\
    (normalize config = true -> depth processed = CV_32F).
Proof.
  intros Hres Hcol Hw Hh. rewrite preprocess_for_inference_run. unfold preprocessed.
  destruct (preprocess_internal frame config) as [processed|what|] eqn:Hpre;
    intros Hrun Hs; inversion Hrun; subst; try discriminate. cbn.
  unfold preprocess_internal, resize_step in Hpre.
  apply Z.ltb_lt in Hw, Hh. rewrite Hw, Hh in Hpre. cbn [andb] in Hpre.
  destruct (cv_resize frame (target_width config) (target_height config)
              (interpolation config)) as [w|resized] eqn:Hrz; [discriminate|].
  destruct (Hres _ _ _ _ _ Hrz) as [Hc1 Hr1].
  cbn [call mbind outcome_bind] in Hpre.
  assert (Hcolor : exists m2, color_step frame config resized = Ok m2 /\
                     rows m2 = rows resized /\ cols m2 = cols resized /\
                     normalize_step config m2 = Ok processed).
  { unfold color_step in *. destruct (rgb_conversion config && (cn frame =? 3)).
    - destruct (cvtColor resized COLOR_BGR2RGB) as [w|m2] eqn:Hcv; [discriminate|].
      destruct (Hcol _ _ _ Hcv) as [? ?]. exists m2. cbn in *. auto.
    - exists resized. auto. }
  destruct Hcolor as (m2 & _ & Hr2 & Hc2 & Hnorm).
  destruct (normalize_step_shape config m2 processed Hnorm) as (Hr3 & Hc3 & Hd3).
  repeat split; [congruence | congruence |].
  exists processed. auto.
Qed.

End PreprocessShape.

(** The concrete colour conversion meets the contract. *)
Lemma sample_color_contract : color_contract (P := sample_prims).
Proof.
  intros m code m'. cbn. unfold sample_cvtColor.
  destruct (mat_empty m); [discriminate|].
  destruct code; destruct (cn m =? _); try discriminate;
    intros [= <-]; cbn; auto.
Qed.

(** A two-pixel BGR row preprocessed to one normalized pixel. *)
Lemma preprocess_reports_target_size_witness :
  exists r s',
    preprocess_for_inference (P := sample_prims) (row_frame 2 3 10)
      {| target_width := 1; target_height := 1; normalize := true; rgb_conversion := true;
         mean := (f32_zero, f32_zero, f32_zero); std := (f32_one, f32_one, f32_one);
         interpolation := INTER_LINEAR |} state0 = (Ok r, s') /\
    width r = Some 1 /\ height r = Some 1.
Proof.
  set (config := {| target_width := 1; target_height := 1; normalize := true;
                    rgb_conversion := true; mean := (f32_zero, f32_zero, f32_zero);
                    std := (f32_one, f32_one, f32_one); interpolation := INTER_LINEAR |}).
  destruct (preprocess_for_inference (P := sample_prims) (row_frame 2 3 10) config state0)
    as [[r|w|] s'] eqn:Hrun; try (vm_compute in Hrun; discriminate Hrun).
  exists r, s'. split; [reflexivity|].
  assert (Hs : success r = true) by (vm_compute in Hrun; inversion Hrun; reflexivity).
  destruct (preprocess_reports_target_size (P := sample_prims) (row_frame 2 3 10) config
              state0 s' r sample_resize_contract sample_color_contract
              ltac:(cbn; lia) ltac:(cbn; lia) Hrun Hs) as (Hw & Hh & _).
  split; [exact Hw | exact Hh].
Defined.

Section FloatCodec.
Context `{P : Primitives}.

Lemma preprocess_internal_normalized (frame : Mat) (config : PreprocessConfig)
    (processed : Mat) :
  preprocess_internal frame config = Ok processed ->
  exists m, normalize_step config m = Ok processed.
Proof.
  unfold preprocess_internal.
  destruct (resize_step config frame) as [m1| |]; try discriminate.
  cbn [mbind outcome_bind].
  destruct (color_step frame config m1) as [m2| |]; try discriminate.
  cbn [mbind outcome_bind]. eauto.
Qed.

(** X4.  [preprocess_and_encode] hands the codec the preprocessed matrix
    itself: when normalization is on and preprocessing returns a 1- or
    3-channel matrix, the one codec call of the operation is made on that
    matrix, and it is a [CV_32F] matrix - nothing converts it back to 8-bit
    samples in between. *)
Theorem preprocess_and_encode_float_codec (frame : Mat) (preproc_config : PreprocessConfig)
    (jpeg_config : JPEGConfig) (s : State) (processed : Mat) :
  normalize preproc_config = true ->
  preprocess_internal frame preproc_config = Ok processed ->
  cn processed = 1 \/ cn processed = 3 ->
  depth processed = CV_32F /\
  exists r s', preprocess_and_encode frame preproc_config jpeg_config s = (Ok r, s') /\
    tj_log s' = tj_log s ++
      [TjCompress (tid s) (jpeg_compressor_ s) processed
         (if cn processed =? 1 then TJPF_GRAY else TJPF_BGR)
         (subsample jpeg_config) (quality jpeg_config)
         (if optimize jpeg_config then TJFLAG_FASTDCT else 0)].
Proof.
  intros Hn Hpre Hcn. split.
  - destruct (preprocess_internal_normalized _ _ _ Hpre) as [m Hm].
    apply (normalize_step_shape _ _ _ Hm). exact Hn.
  - unfold preprocess_and_encode, try_catch, mbind, M_bind, lift. rewrite Hpre.
    destruct (encode_jpeg_internal_effect processed jpeg_config s)
      as (s' & -> & _ & _ & _ & Hlog).
    eexists _, s'. split; [reflexivity|].
    rewrite Hlog, encode_log_accepted by exact Hcn. reflexivity.
Qed.

End FloatCodec.

(** A BGR pixel normalized and encoded. *)
Lemma preprocess_and_encode_float_codec_witness :
  exists processed,
    preprocess_internal (P := sample_prims) (row_frame 1 3 10)
      {| target_width := 0; target_height := 0; normalize := true; rgb_conversion := false;
         mean := (f32_zero, f32_zero, f32_zero); std := (f32_one, f32_one, f32_one);
         interpolation := INTER_LINEAR |} = Ok processed /\
    depth processed = CV_32F.
Proof.
  set (config := {| target_width := 0; target_height := 0; normalize := true;
                    rgb_conversion := false; mean := (f32_zero, f32_zero, f32_zero);
                    std := (f32_one, f32_one, f32_one); interpolation := INTER_LINEAR |}).
  destruct (preprocess_internal (P := sample_prims) (row_frame 1 3 10) config)
    as [processed|w|] eqn:Hpre; try (vm_compute in Hpre; discriminate Hpre).
  exists processed. split; [reflexivity|].
  refine (proj1 (preprocess_and_encode_float_codec (P := sample_prims) (row_frame 1 3 10)
                   config default_JPEGConfig state0 processed eq_refl Hpre _)).
  vm_compute in Hpre. inversion Hpre. right. reflexivity.
Defined.

Section NormalizePaths.
Context `{P : Primitives}.

Lemma split_length (m : Mat) :
  mat_empty m = false -> length (split m) = Z.to_nat (cn m).
Proof. intros He. unfold split. rewrite He, length_map, length_seq. reflexivity. Qed.

(** X5.  On a non-empty frame [normalize_frame] returns a [CV_32F] matrix
    of the same size and channel count in which every sample is scaled and
    the samples of the first three channels have the mean of their channel
    subtracted and are divided by its std; a fourth channel is only
    scaled. *)
Theorem normalize_frame_per_pixel (frame : Mat)
    (mean std : spec_float * spec_float * spec_float) :
  mat_wf frame -> mat_empty frame = false ->
  exists out, normalize_frame frame mean std = Ok out /\
    out = normalize_always mean std frame /\
    rows out = rows frame /\ cols out = cols frame /\ cn out = cn frame /\
    depth out = CV_32F.
Proof.
  intros Hwf Hne. exists (normalize_always mean std frame).
  split; [apply normalize_frame_always; assumption|].
  split; [reflexivity|].
  unfold normalize_always, convertTo_32F, depth. cbn.
  destruct (mdata frame); cbn; auto.
Qed.

(** X6.  On a non-empty matrix of at least three channels, the normalize
    step of [preprocess_internal] with a mean or std given computes what
    [normalize_frame] computes. *)
Theorem normalize_step_matches_normalize_frame (config : PreprocessConfig) (m : Mat) :
  normalize config = true -> mean_std_given config = true ->
  mat_empty m = false -> 3 <= cn m ->
  normalize_step config m = normalize_frame m (mean config) (std config).
Proof.
  intros Hn Hg Hne Hcn. unfold normalize_step, normalize_frame. rewrite Hn, Hg.
  rewrite (split_length (convertTo_32F m)) by exact Hne.
  change (cn (convertTo_32F m)) with (cn m).
  rewrite Nat.min_l by lia. reflexivity.
Qed.

(** X7.  [normalize_frame] never indexes outside its vector of planes,
    whatever the frame.  The normalize step of [preprocess_internal] with a
    mean or std given does, on every empty matrix and on every matrix of
    fewer than three channels. *)
Theorem normalize_bounds (config : PreprocessConfig) (m : Mat) :
  normalize_frame m (mean config) (std config) <> Undefined /\
  (normalize config = true -> mean_std_given config = true ->
   mat_empty m = true \/ cn m < 3 ->
   normalize_step config m = Undefined).
Proof.
  split.
  - unfold normalize_frame.
    rewrite normalize_channels_run by lia. cbn [mbind outcome_bind].
    set (cs := imap _ _). unfold merge. destruct cs as [|c0 cs]; [discriminate|].
    assert (Hfold : forall l a, foldl (fun acc m0 => a0 ← acc; merge2 a0 m0) a l = Undefined ->
                      a = Undefined).
    { induction l as [|x l IH]; intros a; [auto|]. cbn [foldl]. intros H%IH.
      destruct a as [a| |]; try discriminate; [|reflexivity].
      cbn in H. unfold merge2 in H.
      destruct (negb _); [discriminate|].
      destruct (mdata a), (mdata x); discriminate. }
    intros H%Hfold. discriminate.
  - intros Hn Hg Hshort. apply normalize_step_short_undefined; [assumption..|].
    destruct (mat_empty (convertTo_32F m)) eqn:He.
    + unfold split. rewrite He. cbn. lia.
    + rewrite split_length by exact He. change (cn (convertTo_32F m)) with (cn m).
      change (mat_empty (convertTo_32F m)) with (mat_empty m) in He.
      destruct Hshort as [Hem | Hlt]; [congruence | lia].
Qed.

End NormalizePaths.

(** A two-pixel BGR row normalized with a mean. *)
Lemma normalize_frame_per_pixel_witness :
  exists out,
    normalize_frame (P := sample_prims) (row_frame 2 3 10)
      (f32_one, f32_zero, f32_zero) (f32_one, f32_one, f32_one) = Ok out /\
    rows out = 1 /\ cols out = 2 /\ cn out = 3.
Proof.
  destruct (normalize_frame_per_pixel (P := sample_prims) (row_frame 2 3 10)
              (f32_one, f32_zero, f32_zero) (f32_one, f32_one, f32_one))
    as (out & Hrun & _ & Hr & Hc & Hn & _).
  - unfold mat_wf. vm_compute. repeat split; try discriminate. repeat constructor.
  - reflexivity.
  - exists out. auto.
Defined.

(** A BGR pixel through both normalization paths. *)
Lemma normalize_step_matches_normalize_frame_witness :
  normalize_step (P := sample_prims) mean_only (row_frame 1 3 7) =
  normalize_frame (P := sample_prims) (row_frame 1 3 7)
    (f32_one, f32_zero, f32_zero) (f32_one, f32_one, f32_one).
Proof.
  apply (normalize_step_matches_normalize_frame (P := sample_prims) mean_only
           (row_frame 1 3 7)); first [reflexivity | discriminate].
Defined.

(** A grey pixel normalized with a mean. *)
Lemma normalize_bounds_witness :
  normalize_step (P := sample_prims) mean_only (row_frame 1 1 7) = Undefined.
Proof.
  apply (proj2 (normalize_bounds (P := sample_prims) mean_only (row_frame 1 1 7)));
    try reflexivity.
  right. cbn. lia.
Defined.

(** * Further properties of the batch engine *)

Section BatchState.
Context `{P : Primitives}.

(** The state after one encode, exactly. *)
Lemma encode_jpeg_internal_exact (frame : Mat) (config : JPEGConfig) (s : State) :
  encode_jpeg_internal frame config s =
  let r := encoded (jpeg_compressor_ s) frame config in
  (Ok r,
   {| jpeg_compressor_ := jpeg_compressor_ s; num_threads_ := num_threads_ s;
      frames_processed_ := (tally [r] (frames_processed_ s) (bytes_encoded_ s)).1;
      bytes_encoded_ := (tally [r] (frames_processed_ s) (bytes_encoded_ s)).2;
      tid := tid s; tj_next := tj_next s;
      tj_log := tj_log s ++ encode_log (tid s) (jpeg_compressor_ s) frame config |}).
Proof.
  unfold encoded, encode_log, tally. rewrite !encode_jpeg_internal_run. cbv zeta.
  destruct s as [h nt fp be t nx lg]. cbn [jpeg_compressor_ num_threads_ frames_processed_
    bytes_encoded_ tid tj_next tj_log blank].
  destruct (if cn frame =? 4 then cvtColor frame COLOR_BGRA2BGR else inr frame) as [w|bgr].
  { cbn. rewrite app_nil_r. reflexivity. }
  destruct ((cn bgr =? 1) || (cn bgr =? 3)).
  2:{ cbn. rewrite app_nil_r. reflexivity. }
  match goal with |- context [if ?c =? 0 then _ else _] => destruct (c =? 0) end;
    reflexivity.
Qed.

Lemma tally_cons (r : ProcessedFrame) (rs : list ProcessedFrame) (fp be : Z) :
  tally (r :: rs) fp be = tally rs (tally [r] fp be).1 (tally [r] fp be).2.
Proof. unfold tally. cbn [foldl]. destruct (success r); reflexivity. Qed.

(** The work-sharing loop, exactly. *)
Lemma batch_encode_loop_exact (frames : list Mat) (config : JPEGConfig) (sched : schedule)
    (results : list ProcessedFrame) (s : State) :
  batch_encode_loop frames config sched results s =
  let h := jpeg_compressor_ s in
  let c := tally (schedule_results h frames config sched)
                 (frames_processed_ s) (bytes_encoded_ s) in
  (Ok (store_results h frames config sched results),
   {| jpeg_compressor_ := h; num_threads_ := num_threads_ s;
      frames_processed_ := c.1; bytes_encoded_ := c.2;
      tid := tid s; tj_next := tj_next s;
      tj_log := tj_log s ++ loop_log h frames config sched |}).
Proof.
  revert results s. induction sched as [|[t i] sched IH]; intros results s;
    cbn [batch_encode_loop].
  - destruct s. cbn. rewrite app_nil_r. reflexivity.
  - rewrite store_results_cons. unfold schedule_results, loop_log.
    cbn [omap list_omap flat_map fst snd].
    fold (schedule_results (jpeg_compressor_ s) frames config sched).
    fold (loop_log (jpeg_compressor_ s) frames config sched).
    destruct (frames !! i) as [frame|]; cbn [fmap option_fmap option_map].
    + unfold mbind at 1, M_bind, on_thread.
      rewrite encode_jpeg_internal_exact. cbv zeta. cbn [fst snd].
      rewrite IH. cbv zeta. destruct s as [h nt fp be t0 nx lg].
      cbn [set_tid jpeg_compressor_ num_threads_ frames_processed_ bytes_encoded_
           tid tj_next tj_log]. rewrite <- app_assoc.
      rewrite (tally_cons (encoded h frame config) (schedule_results h frames config sched)).
      reflexivity.
    + rewrite app_nil_l. apply IH.
Qed.

Lemma team_init_exact (threads : list nat) (s : State) :
  team_init threads s =
  (Ok (team_locals threads (tj_next s)),
   set_tj (length threads + tj_next s)%nat
          (tj_log s ++ map (fun th => TjInit th.1 th.2) (team_locals threads (tj_next s))) s).
Proof.
  revert s. induction threads as [|t threads IH]; intros s; cbn [team_init team_locals].
  - destruct s. cbn. rewrite app_nil_r. reflexivity.
  - unfold mbind at 1, M_bind, on_thread, tjInitCompress. cbn [fst snd].
    unfold mbind, M_bind. rewrite IH. destruct s as [h nt fp be t0 nx lg].
    cbn. rewrite <- app_assoc. unfold set_tj. cbn. do 2 f_equal. lia.
Qed.

Lemma team_destroy_exact (locals : list (nat * tjhandle)) (s : State) :
  team_destroy locals s =
  (Ok tt, set_tj (tj_next s)
                 (tj_log s ++ map (fun th => TjDestroy th.1 th.2) locals) s).
Proof.
  revert s. induction locals as [|[t h] locals IH]; intros s; cbn [team_destroy].
  - destruct s. cbn. rewrite app_nil_r. reflexivity.
  - unfold mbind at 1, M_bind, on_thread, tjDestroy. cbn [fst snd].
    rewrite IH. destruct s as [h0 nt fp be t0 nx lg]. cbn. rewrite <- app_assoc.
    reflexivity.
Qed.

(** [batch_encode_jpeg], exactly. *)
Lemma batch_encode_jpeg_exact (team : nat) (sched : schedule) (frames : list Mat)
    (config : JPEGConfig) (s : State) :
  batch_encode_jpeg team sched frames config s =
  let h := jpeg_compressor_ s in
  let c := tally (schedule_results h frames config sched)
                 (frames_processed_ s) (bytes_encoded_ s) in
  (Ok (store_results h frames config sched (replicate (length frames) ProcessedFrame_zero)),
   {| jpeg_compressor_ := h; num_threads_ := num_threads_ s;
      frames_processed_ := c.1; bytes_encoded_ := c.2;
      tid := tid s; tj_next := (team + tj_next s)%nat;
      tj_log := tj_log s ++ batch_encode_log h (tj_next s) team sched frames config |}).
Proof.
  unfold batch_encode_jpeg, batch_encode_log, mbind, M_bind.
  rewrite team_init_exact. cbv beta iota zeta.
  rewrite batch_encode_loop_exact. cbv beta iota zeta.
  rewrite team_destroy_exact. destruct s as [h nt fp be t0 nx lg].
  cbn. rewrite length_seq, <- !app_assoc. reflexivity.
Qed.

End BatchState.

Section BatchResults.
Context `{P : Primitives}.











End BatchResults.



Section BatchHandles.
Context `{P : Primitives}.





(** X11.  An empty batch: under any schedule, [batch_preprocess] returns
    no result and leaves the processor as it was, and [batch_encode_jpeg]
    returns no result, makes no codec call and leaves both counters as they
    were. *)
Theorem batch_of_no_frames (team : nat) (sched : schedule) (config : PreprocessConfig)
    (jpeg_config : JPEGConfig) (s : State) :
  batch_preprocess sched [] config s = (Ok [], s) /\
  exists s', batch_encode_jpeg team sched [] jpeg_config s = (Ok [], s') /\
    frames_processed_ s' = frames_processed_ s /\
    bytes_encoded_ s' = bytes_encoded_ s /\
    compress_calls (tj_log s') = compress_calls (tj_log s).
Proof.
  split.
  - unfold batch_preprocess. generalize (@nil ProcessedFrame).
    induction sched as [|[t i] sched IH]; intros acc; [reflexivity|].
    cbn [batch_preprocess_loop]. rewrite lookup_nil. apply IH.
  - rewrite batch_encode_jpeg_exact. cbv zeta.
    assert (Hnil : forall sc : schedule,
      schedule_results (jpeg_compressor_ s) [] jpeg_config sc = [] /\
      store_results (jpeg_compressor_ s) [] jpeg_config sc [] = [] /\
      loop_log (jpeg_compressor_ s) [] jpeg_config sc = []).
    { unfold schedule_results, loop_log.
      induction sc as [|[t i] sc (IH1 & IH2 & IH3)]; [repeat split|].
      rewrite store_results_cons. cbn [omap list_omap flat_map snd].
      rewrite lookup_nil. auto. }
    destruct (Hnil sched) as (Hres & Hstore & Hlog).
    cbn [length replicate].
    rewrite Hres, Hstore. eexists. split; [reflexivity|].
    cbn [frames_processed_ bytes_encoded_ tj_log tally foldl fst snd].
    repeat split. unfold batch_encode_log. rewrite Hlog, !compress_calls_app.
    assert (Hnone : forall l : list (nat * tjhandle),
              compress_calls (map (fun th => TjInit th.1 th.2) l) = [] /\
              compress_calls (map (fun th => TjDestroy th.1 th.2) l) = []).
    { induction l as [|x l [IH1 IH2]]; split; cbn; auto. }
    destruct (Hnone (team_locals (seq 0 team) (tj_next s))) as [-> ->].
    cbn. rewrite !app_nil_r. reflexivity.
Qed.

End BatchHandles.

Section PreprocessSlots.
Context `{P : Primitives}.

Lemma preprocess_in_order_slots (frames : list Mat) (config : PreprocessConfig)
    (order : list nat) :
  Forall (fun i => (i < length frames)%nat) order ->
  Forall (fun frame => preprocess_internal frame config <> Undefined) frames ->
  exists rs, preprocess_in_order frames config order = Some rs /\
    length rs = length order /\
    forall k i, order !! k = Some i ->
      exists frame r, frames !! i = Some frame /\ rs !! k = Some r /\
        preprocessed frame config = Some r.
Proof.
  intros Hidx Hdef. induction Hidx as [|i order Hi _ (rs & Hrs & Hlen & Hslots)].
  - exists []. repeat split. intros k i Hk. rewrite lookup_nil in Hk. discriminate.
  - destruct (lookup_lt_is_Some_2 frames i Hi) as [frame Hf].
    assert (Hr : exists r, preprocessed frame config = Some r).
    { pose proof (proj1 (Forall_lookup _ _) Hdef i frame Hf) as Hnu.
      cbv beta in Hnu. unfold preprocessed.
      destruct (preprocess_internal frame config); eauto. congruence. }
    destruct Hr as [r Hr].
    exists (r :: rs). rewrite preprocess_in_order_cons, Hf, Hr, Hrs.
    split; [reflexivity|]. split; [cbn; congruence|].
    intros [|k] j Hk; cbn in Hk.
    + injection Hk as <-. exists frame, r. auto.
    + apply Hslots. exact Hk.
Qed.

(** X12.  When no frame of the batch has undefined behaviour,
    [batch_preprocess] returns, under every schedule that runs each
    iteration once, one result per frame; the slot at position [k] holds
    the result that [preprocess_for_inference] returns for the frame whose
    iteration was the [k]-th to reach the critical section, and each success
    has counted one frame. *)
Theorem batch_preprocess_slots (team : nat) (sched : schedule) (frames : list Mat)
    (config : PreprocessConfig) (s : State) :
  valid_schedule team (length frames) sched ->
  Forall (fun frame => preprocess_internal frame config <> Undefined) frames ->
  exists rs s', batch_preprocess sched frames config s = (Ok rs, s') /\
    length rs = length frames /\
    s' = count_results rs s /\
    forall k t i, sched !! k = Some (t, i) ->
      exists frame r, frames !! i = Some frame /\ rs !! k = Some r /\
        (preprocess_for_inference frame config s).1 = Ok r.
Proof.
  intros [Hperm _] Hdef.
  assert (Hidx : Forall (fun i => (i < length frames)%nat) sched.*2).
  { apply Forall_forall. intros i Hi. rewrite Hperm in Hi.
    apply elem_of_seq in Hi. lia. }
  destruct (preprocess_in_order_slots frames config sched.*2 Hidx Hdef)
    as (rs & Hrs & Hlen & Hslots).
  exists rs, (count_results rs s). split.
  { unfold batch_preprocess.
    apply (batch_preprocess_loop_defined frames config sched [] rs s Hrs). }
  split. { rewrite Hlen, length_fmap, <- (length_fmap snd), Hperm. apply length_seq. }
  split; [reflexivity|].
  intros k t i Hk.
  destruct (Hslots k i) as (frame & r & Hf & Hr & Hpre).
  { rewrite list_lookup_fmap. exact (f_equal (fmap snd) Hk). }
  exists frame, r. repeat split; try assumption.
  rewrite preprocess_for_inference_run, Hpre. reflexivity.
Qed.

End PreprocessSlots.

(** Two frames preprocessed by two threads, the second iteration first. *)
Lemma batch_preprocess_slots_witness :
  exists rs s',
    batch_preprocess (P := sample_prims) [(1, 1); (0, 0)]%nat
      [row_frame 1 1 7; row_frame 2 1 7] passthrough state0 = (Ok rs, s') /\
    length rs = 2%nat /\ s' = count_results rs state0.
Proof.
  destruct (batch_preprocess_slots (P := sample_prims) 2 [(1, 1); (0, 0)]%nat
              [row_frame 1 1 7; row_frame 2 1 7] passthrough state0)
    as (rs & s' & Hrun & Hlen & Hs & _).
  - split; [apply Permutation_swap | repeat constructor].
  - repeat constructor; discriminate.
  - exists rs, s'. auto.
Defined.

(** * Further properties of the pool *)

Section PoolInvariants.

Lemma pool_promises_step (p p' : Pool) :
  step p p' ->
  promise_of <$> (ran p ++ tasks_ p) = seq 0 (next_promise p) ->
  promise_of <$> (ran p' ++ tasks_ p') = seq 0 (next_promise p').
Proof.
  intros Hstep Hinv.
  inversion Hstep as [p0 frames config|p0 frames config|p0|p0 i t rest Hw Ht
                      |p0 i Hw Hstop Ht|p0 i Hstop Hw]; subst;
    unfold submit_batch, submit_encode_batch, set_stop, set_worker;
    cbn [snd ran tasks_ next_promise]; try exact Hinv.
  - rewrite app_assoc, fmap_app, Hinv, seq_S. reflexivity.
  - rewrite app_assoc, fmap_app, Hinv, seq_S. reflexivity.
  - rewrite Ht in Hinv. rewrite <- app_assoc. exact Hinv.
Qed.

Lemma pool_promises_step_rtc (n : nat) (p : Pool) :
  rtc step (FrameProcessorPool_new n) p ->
  promise_of <$> (ran p ++ tasks_ p) = seq 0 (next_promise p).
Proof.
  revert p. apply rtc_ind_r; [reflexivity|].
  intros p p' _ Hstep IH. exact (pool_promises_step p p' Hstep IH).
Qed.

(** X13.  In every run of a pool from its construction, the [k]-th
    submission captured promise [k], and the closures that were called
    followed by the closures still queued are the submissions in the order
    in which they were made: no submission is lost, run twice or overtaken. *)
Theorem pool_runs_in_submission_order (n : nat) (p : Pool) :
  rtc step (FrameProcessorPool_new n) p ->
  promise_of <$> (ran p ++ tasks_ p) = seq 0 (next_promise p).
Proof. apply pool_promises_step_rtc. Qed.

Lemma pool_workers_step (p p' : Pool) :
  step p p' ->
  length (workers_ p') = length (workers_ p) /\
  (stop_ p = true -> stop_ p' = true) /\
  (stop_ p' = false -> workers_ p' = workers_ p) /\
  (forall i, workers_ p !! i = Some Joined -> workers_ p' !! i = Some Joined) /\
  (forall i, workers_ p !! i = Some Exited -> workers_ p' !! i <> Some Running).
Proof.
  intros Hstep.
  inversion Hstep as [p0 frames config|p0 frames config|p0|p0 i t rest Hw Ht
                      |p0 i Hw Hstop Ht|p0 i Hstop Hw]; subst; cbn;
    try (repeat split; first [reflexivity | assumption | discriminate | congruence]).
  - split; [apply length_insert|]. split; [auto|]. split; [congruence|].
    split; intros j Hj; destruct (decide (j = i)) as [->|Hne];
      try congruence; rewrite list_lookup_insert_ne by congruence; congruence.
  - split; [apply length_insert|]. split; [auto|]. split; [congruence|].
    split; intros j Hj; destruct (decide (j = i)) as [->|Hne].
    + apply list_lookup_insert_eq. eapply lookup_lt_Some. exact Hw.
    + rewrite list_lookup_insert_ne by congruence. exact Hj.
    + rewrite list_lookup_insert_eq by (eapply lookup_lt_Some; exact Hw). discriminate.
    + rewrite list_lookup_insert_ne by congruence. congruence.
Qed.

(** X14.  Along every run of a pool the number of workers is fixed, the
    stop flag once set stays set, no worker returns from [worker_thread]
    while the flag is clear, a joined worker stays joined and a worker that
    has returned never runs again. *)
Theorem pool_workers_only_stop_after_flag (p p' : Pool) :
  rtc step p p' ->
  length (workers_ p') = length (workers_ p) /\
  (stop_ p = true -> stop_ p' = true) /\
  (stop_ p' = false -> workers_ p' = workers_ p) /\
  (forall i, workers_ p !! i = Some Joined -> workers_ p' !! i = Some Joined) /\
  (forall i, workers_ p !! i = Some Exited -> workers_ p' !! i <> Some Running).
Proof.
  revert p'. apply rtc_ind_r.
  { repeat split; auto. intros i H. rewrite H. discriminate. }
  intros q q' _ Hstep (IHlen & IHstop & IHrun & IHj & IHe).
  destruct (pool_workers_step q q' Hstep) as (Hlen & Hstop & Hrun & Hj & He).
  split; [congruence|]. split; [auto|]. split.
  - intros Hclear. rewrite (Hrun Hclear). apply IHrun.
    destruct (stop_ q) eqn:Hq; [|reflexivity]. rewrite (Hstop eq_refl) in Hclear.
    discriminate.
  - split; [auto|]. intros i Hi Hrunning.
    pose proof (IHe i Hi) as Hnot.
    destruct (workers_ q !! i) as [[]|] eqn:Hq.
    + congruence.
    + exact (He i Hq Hrunning).
    + rewrite (Hj i Hq) in Hrunning. discriminate.
    + apply lookup_ge_None_1 in Hq. rewrite <- Hlen in Hq.
      apply lookup_ge_None_2 in Hq. congruence.
Qed.

(** X15.  A pool constructed with no thread never calls a task: in every
    run, [shutdown] included, the submissions stay in the queue in the
    order of their submission. *)
Theorem pool_without_workers_runs_nothing (p : Pool) :
  rtc step (FrameProcessorPool_new 0) p ->
  workers_ p = [] /\ ran p = [] /\
  promise_of <$> tasks_ p = seq 0 (next_promise p) /\
  tasks_ (shutdown p) = tasks_ p /\ ran (shutdown p) = [].
Proof.
  intros Hrun.
  assert (Hinv : workers_ p = [] /\ ran p = []).
  { revert p Hrun. apply rtc_ind_r; [split; reflexivity|].
    intros q q' _ Hstep [Hw Hr].
    inversion Hstep as [p0 frames config|p0 frames config|p0|p0 i t rest Hw' Ht
                        |p0 i Hw' Hstop Ht|p0 i Hstop Hw']; subst; cbn;
      try (split; assumption);
      rewrite Hw in Hw'; rewrite lookup_nil in Hw'; discriminate. }
  destruct Hinv as [Hw Hr].
  pose proof (pool_promises_step_rtc 0 p Hrun) as Hp. rewrite Hr in Hp.
  unfold shutdown. rewrite Hw. cbn. auto.
Qed.

End PoolInvariants.

(** One worker, two submissions, the first of them run. *)
Lemma pool_runs_in_submission_order_witness :
  let t0 := PreprocessTask [] default_PreprocessConfig 0 in
  let t1 := EncodeTask [] default_JPEGConfig 1 in
  promise_of <$> ([t0] ++ [t1]) = seq 0 2.
Proof.
  intros t0 t1.
  apply (pool_runs_in_submission_order 1
           {| workers_ := [Running]; tasks_ := [t1]; stop_ := false; ran := [t0];
              next_promise := 2 |}).
  eapply rtc_l; [apply (step_submit_batch _ [] default_PreprocessConfig)|].
  eapply rtc_l; [apply (step_submit_encode_batch _ [] default_JPEGConfig)|].
  apply rtc_once.
  exact (step_run {| workers_ := [Running]; tasks_ := [t0; t1]; stop_ := false; ran := [];
                     next_promise := 2 |} 0%nat t0 [t1] eq_refl eq_refl).
Defined.

(** A pool of two workers, shut down. *)
Lemma pool_workers_only_stop_after_flag_witness :
  length (workers_ (shutdown (FrameProcessorPool_new 2))) = 2%nat.
Proof.
  apply (pool_workers_only_stop_after_flag (FrameProcessorPool_new 2)
           (shutdown (FrameProcessorPool_new 2))).
  apply shutdown_run.
Defined.

(** A pool without workers, one submission, shut down. *)
Lemma pool_without_workers_runs_nothing_witness :
  let p := (submit_batch [] default_PreprocessConfig (FrameProcessorPool_new 0)).2 in
  ran (shutdown p) = [].
Proof.
  intros p.
  apply (pool_without_workers_runs_nothing p).
  apply rtc_once. apply (step_submit_batch _ [] default_PreprocessConfig).
Defined.

(** * Properties of the Python bindings *)

Section BufferViews.

(** Consecutive chunks of [c] elements are a prefix. *)
Lemma chunks_take {A : Type} (c n : nat) (l : list A) :
  flat_map (fun k => take c (drop (k * c) l)) (seq 0 n) = take (n * c) l.
Proof.
  induction n as [|n IH]; [reflexivity|].
  rewrite seq_S, flat_map_app, IH. cbn [flat_map Nat.add]. rewrite app_nil_r.
  rewrite take_take_drop. f_equal. lia.
Qed.

Lemma view_pixels_bytes (n c : nat) (bytes : list Z) :
  length bytes = (n * c)%nat -> concat (view_pixels n c bytes) = bytes.
Proof.
  intros Hlen. unfold view_pixels. rewrite <- flat_map_concat_map, chunks_take.
  apply take_ge. lia.
Qed.

Lemma view_pixels_widths (n c : nat) (bytes : list Z) :
  length bytes = (n * c)%nat -> Forall (fun p => length p = c) (view_pixels n c bytes).
Proof.
  intros Hlen. unfold view_pixels. apply Forall_forall. intros p Hp.
  apply list_elem_of_fmap in Hp. destruct Hp as (k & -> & Hk).
  apply elem_of_seq in Hk. rewrite length_take, length_drop. nia.
Qed.

(** A matrix header over a buffer of exactly [h * w * c] bytes is well
    formed, stores the buffer, and goes back to an array of the same
    bytes. *)
Lemma view_round_trip (h w c : Z) (bytes : list Z) :
  0 <= h -> 0 <= w -> 1 <= c -> Z.of_nat (length bytes) = h * w * c ->
  let m := {| rows := h; cols := w; cn := c;
              mdata := Data8U (view_pixels (Z.to_nat (h * w)) (Z.to_nat c) bytes) |} in
  mat_wf m /\ mat_bytes m = bytes /\
  mat_to_numpy m = {| shape := if c =? 1 then [h; w] else [h; w; c]; buf := bytes |}.
Proof.
  intros Hh Hw Hc Hlen m.
  assert (Hn : length bytes = (Z.to_nat (h * w) * Z.to_nat c)%nat) by nia.
  assert (Hbytes : mat_bytes m = bytes) by (apply view_pixels_bytes; exact Hn).
  split; [|split; [exact Hbytes|]].
  - unfold mat_wf, npixels, pixel_widths, total, m. cbn.
    repeat split; try lia.
    + unfold view_pixels. rewrite length_map, length_seq. nia.
    + apply Forall_fmap. eapply Forall_impl; [apply view_pixels_widths; exact Hn|].
      cbn. intros p ->. lia.
  - unfold mat_to_numpy. rewrite Hbytes. cbn [cn rows cols]. f_equal.
    unfold elemSize, elemSize1, depth. subst m. cbn [cn mdata rows cols].
    replace (w * (c * 1)) with (w * c) by lia.
    rewrite (chunks_take (Z.to_nat (w * c)) (Z.to_nat h) bytes).
    apply take_ge. nia.
Qed.


(** X16.  A C-ordered array of [h * w] bytes and two dimensions becomes a
    well-formed 1-channel matrix, one of [h * w * 3] bytes and three
    dimensions a well-formed 3-channel matrix whatever its third dimension
    says; [mat_to_numpy] gives back the same bytes, with the shape
    [h, w] or [h, w, 3]. *)
Theorem numpy_mat_round_trip (h w c : Z) (bytes : list Z) :
  0 <= h -> 0 <= w ->
  (Z.of_nat (length bytes) = h * w ->
   exists m, numpy_to_mat {| shape := [h; w]; buf := bytes |} = Ok m /\
     mat_wf m /\ cn m = 1 /\ mat_bytes m = bytes /\
     mat_to_numpy m = {| shape := [h; w]; buf := bytes |}) /\
  (Z.of_nat (length bytes) = h * w * 3 ->
   exists m, numpy_to_mat {| shape := [h; w; c]; buf := bytes |} = Ok m /\
     mat_wf m /\ cn m = 3 /\ mat_bytes m = bytes /\
     mat_to_numpy m = {| shape := [h; w; 3]; buf := bytes |}).
Proof.
  intros Hh Hw. split; intros Hlen.
  - destruct (view_round_trip h w 1 bytes Hh Hw ltac:(lia) ltac:(lia)) as (Hwf & Hb & Hrt).
    eexists. split; [reflexivity|]. auto.
  - destruct (view_round_trip h w 3 bytes Hh Hw ltac:(lia) Hlen) as (Hwf & Hb & Hrt).
    eexists. split; [reflexivity|]. auto.
Qed.

End BufferViews.

Section BindingFacts.
Context `{P : Primitives}.








End BindingFacts.

(** A 1 x 2 colour array. *)
Lemma numpy_mat_round_trip_witness :
  exists m, numpy_to_mat {| shape := [1; 2; 3]; buf := [1; 2; 3; 4; 5; 6] |} = Ok m /\
    mat_to_numpy m = {| shape := [1; 2; 3]; buf := [1; 2; 3; 4; 5; 6] |}.
Proof.
  destruct (numpy_mat_round_trip 1 2 3 [1; 2; 3; 4; 5; 6]) as [_ H]; [lia | lia |].
  destruct H as (m & Hm & _ & _ & _ & Hrt); [reflexivity|].
  exists m. split; assumption.
Defined.



(** * Further properties of preprocessing *)

Section PreprocessResults.
Context `{P : Primitives}.

(** X20.  A result of [preprocess_for_inference] that reports a failure
    carries the message of the exception [preprocess_internal] threw, no
    data, and no geometry: [width], [height] and [channels] are assigned
    only after the preprocessing has returned, so they are left
    indeterminate, and the frame is not counted.  A successful result has
    all three assigned and the frame counted. *)
Theorem preprocess_failure_has_no_geometry (frame : Mat) (config : PreprocessConfig)
    (s s' : State) (r : ProcessedFrame) :
  preprocess_for_inference frame config s = (Ok r, s') ->
  (success r = false ->
     preprocess_internal frame config = Throw (error_msg r) /\
     data r = [] /\ width r = None /\ height r = None /\ channels r = None /\ s' = s) /\
  (success r = true ->
     exists processed, preprocess_internal frame config = Ok processed /\
       width r = Some (cols processed) /\ height r = Some (rows processed) /\
       channels r = Some (cn processed) /\ data r = copy_out processed /\
       s' = counted s).
Proof.
  rewrite preprocess_for_inference_run. unfold preprocessed.
  destruct (preprocess_internal frame config) as [processed|what|]; [| |discriminate].
  - intros [= <- <-]. cbn. split; [discriminate|].
    intros _. exists processed. repeat split.
  - intros [= <- <-]. cbn. split; [|discriminate]. intros _. repeat split.
Qed.

(** X21.  In a build without OpenMP the pragmas are ignored and the loop
    of [batch_preprocess] runs in order on the calling thread: when no frame
    has undefined behaviour, slot [i] of the result is the result of
    [preprocess_for_inference] for frame [i]. *)
Theorem batch_preprocess_sequential_in_order (frames : list Mat)
    (config : PreprocessConfig) (s : State) :
  Forall (fun frame => preprocess_internal frame config <> Undefined) frames ->
  valid_schedule 1 (length frames) (sequential (length frames)) /\
  exists rs s',
    batch_preprocess (sequential (length frames)) frames config s = (Ok rs, s') /\
    length rs = length frames /\ s' = count_results rs s /\
    forall i frame, frames !! i = Some frame ->
      exists r, rs !! i = Some r /\ (preprocess_for_inference frame config s).1 = Ok r.
Proof.
  intros Hdef.
  assert (Hsnd : (sequential (length frames)).*2 = seq 0 (length frames)).
  { unfold sequential. change (map ?f ?l) with (f <$> l).
    rewrite <- list_fmap_compose. apply list_fmap_id. }
  split.
  { split; [rewrite Hsnd; reflexivity|].
    apply Forall_forall. intros [t i] Hin. unfold sequential in Hin.
    apply list_elem_of_fmap in Hin. destruct Hin as (j & [= -> ->] & _). cbn. lia. }
  assert (Hidx : Forall (fun i => (i < length frames)%nat) (sequential (length frames)).*2).
  { rewrite Hsnd. apply Forall_forall. intros i Hi. apply elem_of_seq in Hi. lia. }
  destruct (preprocess_in_order_slots frames config _ Hidx Hdef)
    as (rs & Hrs & Hlen & Hslots).
  exists rs, (count_results rs s). split.
  { unfold batch_preprocess.
    apply (batch_preprocess_loop_defined frames config _ [] rs s Hrs). }
  split; [rewrite Hlen, Hsnd; apply length_seq|].
  split; [reflexivity|].
  intros i frame Hi.
  destruct (Hslots i i) as (frame' & r & Hf & Hr & Hpre).
  { rewrite Hsnd. apply lookup_seq. split; [reflexivity|].
    eapply lookup_lt_Some. exact Hi. }
  rewrite Hi in Hf. injection Hf as <-.
  exists r. split; [exact Hr|].
  rewrite preprocess_for_inference_run, Hpre. reflexivity.
Qed.

End PreprocessResults.

(** An empty frame with a positive target: the resize throws. *)
Lemma preprocess_failure_has_no_geometry_witness :
  exists r, (preprocess_for_inference (P := sample_prims) (row_frame 0 1 7)
               default_PreprocessConfig state0).1 = Ok r /\
    success r = false /\ width r = None.
Proof.
  eexists. split; [vm_compute; reflexivity|].
  split; [reflexivity|].
  destruct (preprocess_failure_has_no_geometry (P := sample_prims) (row_frame 0 1 7)
              default_PreprocessConfig state0 state0
              {| data := []; width := None; height := None; channels := None;
                 success := false; error_msg := "resize: empty size" |})
    as [Hfail _].
  - vm_compute. reflexivity.
  - destruct Hfail as (_ & _ & Hw & _); [reflexivity | exact Hw].
Defined.

(** Two frames on the calling thread. *)
Lemma batch_preprocess_sequential_in_order_witness :
  exists rs s',
    batch_preprocess (P := sample_prims) (sequential 2)
      [row_frame 1 1 7; row_frame 2 1 7] passthrough state0 = (Ok rs, s') /\
    length rs = 2%nat.
Proof.
  destruct (batch_preprocess_sequential_in_order (P := sample_prims)
              [row_frame 1 1 7; row_frame 2 1 7] passthrough state0)
    as (_ & rs & s' & Hrun & Hlen & _).
  - repeat constructor; discriminate.
  - exists rs, s'. split; assumption.
Defined.
